(** * MediaElement iframe renderers: Vimeo and SoundCloud

    A shallow embedding of [src/js/renderers/vimeo.js] and
    [src/js/renderers/soundcloud.js]: the script loaders ([vimeoApi],
    [SoundCloudApi]), the URL helper [getVimeoId], the [canPlayType]
    predicates and the renderer objects built by [create] (property proxies,
    method proxies, the pending command queue [apiStack] and the ready
    callback that replays it).

    The renderers are closures over mutable variables, talking to a widget
    that answers later.  A renderer is therefore a record of those variables
    together with what is in flight (promises or callbacks, timers) and the
    trace of what it did to the outside (calls on the widget, events
    dispatched, console output); every function of the source becomes a
    function on that record, and the widget, the timers and the page act
    through explicit steps.  A call that can throw returns an [outcome].

    [win] and [doc], which both files use without declaring them, are taken
    to be the window and the document; [mejs.html5media.properties] and
    [mejs.html5media.methods], which are not part of these files, are not
    fixed: the proxies are modelled for every property and method name. *)

From Stdlib Require Import ZArith QArith Ascii String List Bool Lia.
From stdpp Require Import base list.

Open Scope string_scope.
Open Scope list_scope.
Open Scope Z_scope.

(** ** JavaScript values and string primitives *)

Module JS.

(** One entry of a [mediaFiles] array: [{src: url, type: x/y-z}]. *)
Record source := { src : string; type : string }.

(** The values that reach the renderers.  A finite number is the rational it
    denotes, [VNaN] and the two infinities stand beside it, and the two zeros
    are one.  What [parseInt] and [+] compute is rounded to the nearest
    double by [toDouble] below.  The times, durations and volumes that the
    renderers cache are the rationals the widgets report, scaled without
    rounding where the code scales them; nothing below depends on their last
    bit.  Strings are sequences of Latin-1 code units. *)
Inductive value :=
| VUndefined
| VNull
| VBool (b : bool)
| VNum (q : Q)
| VNaN
| VStr (s : string)
| VSources (l : list source)
| VInfinity (negative : bool).

(** [Boolean(v)], the test of [if (v)]. *)
Definition truthy (v : value) : bool :=
  match v with
  | VUndefined | VNull | VNaN => false
  | VBool b => b
  | VNum q => negb (Qeq_bool q 0)
  | VStr s => negb (String.eqb s EmptyString)
  | VSources _ => true
  | VInfinity _ => true
  end.

(** [v === 0]. *)
Definition strict_eq_zero (v : value) : bool :=
  match v with
  | VNum q => Qeq_bool q 0
  | _ => false
  end.

(** [v === s] for a string literal [s]. *)
Definition strict_eq_str (v : value) (s : string) : bool :=
  match v with
  | VStr t => String.eqb t s
  | _ => false
  end.

(** [arr.indexOf(v)] for an array of string literals: the first index whose
    element is strictly equal to [v], or -1. *)
Fixpoint indexOf_from (arr : list string) (v : value) (i : Z) : Z :=
  match arr with
  | [] => -1
  | s :: rest => if strict_eq_str v s then i else indexOf_from rest v (i + 1)
  end.

Definition indexOf (arr : list string) (v : value) : Z := indexOf_from arr v 0.

(** [s.split(c)] for a one-character separator. *)
Fixpoint split_aux (c : ascii) (s : string) (cur : string) : list string :=
  match s with
  | EmptyString => [cur]
  | String a rest =>
      if Ascii.eqb a c then cur :: split_aux c rest EmptyString
      else split_aux c rest (String.append cur (String a EmptyString))
  end.

Definition split (c : ascii) (s : string) : list string := split_aux c s EmptyString.

(** [s.lastIndexOf(c)]: the index of the last occurrence of [c], or -1. *)
Fixpoint lastIndexOf_from (c : ascii) (s : string) (i : Z) (found : Z) : Z :=
  match s with
  | EmptyString => found
  | String a rest =>
      lastIndexOf_from c rest (i + 1) (if Ascii.eqb a c then i else found)
  end.

Definition lastIndexOf (c : ascii) (s : string) : Z := lastIndexOf_from c s 0 (-1).

(** [s.substring(start)]: [start] is clamped to [0 .. s.length]. *)
Fixpoint drop_chars (n : nat) (s : string) : string :=
  match n, s with
  | O, _ => s
  | S k, EmptyString => EmptyString
  | S k, String _ rest => drop_chars k rest
  end.

Definition substring (start : Z) (s : string) : string :=
  drop_chars (Z.to_nat (Z.max 0 start)) s.

(** White space and line terminators skipped by [parseInt]. *)
Definition is_space (a : ascii) : bool :=
  let n := Z.of_N (N_of_ascii a) in
  (n =? 9) || (n =? 10) || (n =? 11) || (n =? 12) || (n =? 13) || (n =? 32) || (n =? 160).

Fixpoint skip_space (s : string) : string :=
  match s with
  | String a rest => if is_space a then skip_space rest else s
  | EmptyString => s
  end.

Definition digit_val (radix : Z) (a : ascii) : option Z :=
  let n := Z.of_N (N_of_ascii a) in
  let d := if (48 <=? n) && (n <=? 57) then Some (n - 48)
           else if (97 <=? n) && (n <=? 122) then Some (n - 87)
           else if (65 <=? n) && (n <=? 90) then Some (n - 55)
           else None in
  match d with
  | Some k => if k <? radix then Some k else None
  | None => None
  end.

(** The longest prefix of digits of [s] in [radix], read as a number;
    [None] when the prefix is empty. *)
Fixpoint parse_digits (radix : Z) (s : string) (acc : option Z) : option Z :=
  match s with
  | EmptyString => acc
  | String a rest =>
      match digit_val radix a with
      | Some k =>
          parse_digits radix rest
            (Some (match acc with Some n => n * radix + k | None => k end))
      | None => acc
      end
  end.

(** The integer nearest to [n / d], a tie going to the even one
    ([0 <= n], [0 < d]). *)
Definition roundHalfEven (n d : Z) : Z :=
  let q := n / d in
  let r := n mod d in
  if 2 * r <? d then q
  else if d <? 2 * r then q + 1
  else if Z.even q then q else q + 1.

(** [2 ^ e <= n / d], for [e] of either sign. *)
Definition atLeastPow2 (n d e : Z) : bool :=
  if 0 <=? e then d * 2 ^ e <=? n else d <=? n * 2 ^ (- e).

(** The Number value of a real (ECMAScript 6.1.6.1): the double nearest to
    it, a tie going to the even significand.  A double has 53 significant
    bits, hence a spacing of [2 ^ (e - 52)] between [2 ^ e] and
    [2 ^ (e + 1)], the spacing [2 ^ -1074] below [2 ^ -1022], and what
    rounds to [2 ^ 1024] is infinite. *)
Definition toDouble (q : Q) : value :=
  let r := Qred q in
  let n := Z.abs (Qnum r) in
  let d := Z.pos (Qden r) in
  if n =? 0 then VNum 0
  else
    let e0 := Z.log2 n - Z.log2 d in
    let e := if atLeastPow2 n d e0 then e0 else e0 - 1 in
    let k := Z.max e (-1022) - 52 in
    let m := if 0 <=? k then roundHalfEven n (d * 2 ^ k)
             else roundHalfEven (n * 2 ^ (- k)) d in
    if (0 <=? k) && (2 ^ 1024 <=? m * 2 ^ k) then VInfinity (Qnum r <? 0)
    else
      let mag := if 0 <=? k then inject_Z (m * 2 ^ k)
                 else Qmake m (Z.to_pos (2 ^ (- k))) in
      VNum (Qred (if Qnum r <? 0 then Qopp mag else mag)).

(** [parseInt(s)] without a radix argument: the Number value of the integer
    the digits denote.  (Past the 20th significant digit the standard lets
    an implementation read zeros; here every digit counts.) *)
Definition parseInt (s : string) : value :=
  let s1 := skip_space s in
  let '(sign, s2) :=
    match s1 with
    | String "-" rest => (-1, rest)
    | String "+" rest => (1, rest)
    | _ => (1, s1)
    end in
  let '(radix, s3) :=
    match s2 with
    | String "0" (String "x" rest) => (16, rest)
    | String "0" (String "X" rest) => (16, rest)
    | _ => (10, s2)
    end in
  match parse_digits radix s3 None with
  | Some n => toDouble (inject_Z (sign * n))
  | None => VNaN
  end.

End JS.

(** ** Exceptions

    A call either returns, or throws after the mutations it had already
    made; [w] is the state in both cases. *)

Inductive error := TypeError | ReferenceError.

Inductive outcome (W : Type) :=
| Returned (w : W)
| Thrown (e : error) (w : W).
Arguments Returned {W} w.
Arguments Thrown {W} e w.

Definition state_of {W} (o : outcome W) : W :=
  match o with
  | Returned w => w
  | Thrown _ w => w
  end.

Definition returns {W} (o : outcome W) : bool :=
  match o with
  | Returned _ => true
  | Thrown _ _ => false
  end.

(** Sequencing: an exception skips the rest. *)
Definition bind {W} (o : outcome W) (k : W -> outcome W) : outcome W :=
  match o with
  | Returned w => k w
  | Thrown e w => Thrown e w
  end.

Notation "o >>> k" := (bind o k) (at level 60, right associativity).

(** The completion of a call that touches no state. *)
Inductive completion :=
| Value (v : JS.value)
| Throw (e : error).

(** ** The lexical [this] of the loaders' arrow functions

    [loadIframeApi], [iFrameReady] / [apiReady] and the script's [onload]
    handler are arrow functions, so their [this] is the [this] of the
    enclosing module scope, never the loader object.  Both files are modules
    (they start with [import] declarations), where that [this] is
    [undefined]; [ThisObject] covers a wrapper that binds the scope to an
    object of its own, which holds the members the arrow functions write and
    has no [iframeQueue]. *)

Record scopeObject := {
  this_started : bool;      (* this.isIframeStarted / this.isSDKStarted *)
  this_isLoaded : bool;     (* this.isLoaded *)
  this_loaded : bool;       (* this.isIframeLoaded / this.isSDKLoaded *)
  this_readyState : JS.value
}.

Inductive lexicalThis :=
| ThisUndefined
| ThisObject (o : scopeObject).

Definition emptyScope : scopeObject :=
  {| this_started := false; this_isLoaded := false; this_loaded := false;
     this_readyState := JS.VUndefined |}.

(** ** [vimeoApi]: the loader of [vimeo.js] *)

Module VimeoApi.
Import JS.

(** The argument of [enqueueIframe]: [{iframe: vimeoContainer, id: vimeo.id}]. *)
Record settings := { iframe : nat; id : string }.

(** The members of the object literal [vimeoApi].  [isLoaded] is not in the
    literal: it reads [undefined] (falsy, here [false]) until something
    writes it on [vimeoApi] itself. *)
Record loader := {
  isIframeStarted : bool;
  isIframeLoaded : bool;
  isLoaded : bool;
  iframeQueue : list settings
}.

(** The loader, the scope object of its arrow functions, the [done] flag of
    each injected script tag (in injection order) and the surfaces created so
    far: [createIframe] builds [new Vimeo.Player(settings.iframe)] and hands it
    to the ready callback registered under [settings.id]. *)
Record world := {
  api : loader;
  this : lexicalThis;
  scripts : list bool;
  created : list settings
}.

Definition initial (t : lexicalThis) : world :=
  {| api := {| isIframeStarted := false; isIframeLoaded := false;
               isLoaded := false; iframeQueue := [] |};
     this := t; scripts := []; created := [] |}.

Definition createIframe (s : settings) (w : world) : outcome world :=
  Returned {| api := api w; this := this w; scripts := scripts w;
              created := created w ++ [s] |}.

(** [if (!this.isIframeStarted) { ...insert the script...; this.isIframeStarted = true }] *)
Definition loadIframeApi (w : world) : outcome world :=
  match this w with
  | ThisUndefined => Thrown TypeError w
  | ThisObject o =>
      if negb (this_started o) then
        Returned {| api := api w;
                    this := ThisObject {| this_started := true;
                                          this_isLoaded := this_isLoaded o;
                                          this_loaded := this_loaded o;
                                          this_readyState := this_readyState o |};
                    scripts := scripts w ++ [false];
                    created := created w |}
      else Returned w
  end.

Definition push (s : settings) (w : world) : world :=
  {| api := {| isIframeStarted := isIframeStarted (api w);
               isIframeLoaded := isIframeLoaded (api w);
               isLoaded := isLoaded (api w);
               iframeQueue := iframeQueue (api w) ++ [s] |};
     this := this w; scripts := scripts w; created := created w |}.

(** Called as [vimeoApi.enqueueIframe(settings)]: an ordinary function, whose
    [this] is [vimeoApi]. *)
Definition enqueueIframe (s : settings) (w : world) : outcome world :=
  if isLoaded (api w) then createIframe s w
  else loadIframeApi w >>> (fun w' => Returned (push s w')).

(** [this.isLoaded = true; this.isIframeLoaded = true;
     while (this.iframeQueue.length > 0) {...}]: the two writes land on the
    scope object, and reading [length] of its missing [iframeQueue] throws. *)
Definition iFrameReady (w : world) : outcome world :=
  match this w with
  | ThisUndefined => Thrown TypeError w
  | ThisObject o =>
      Thrown TypeError
        {| api := api w;
           this := ThisObject {| this_started := this_started o;
                                 this_isLoaded := true;
                                 this_loaded := true;
                                 this_readyState := this_readyState o |};
           scripts := scripts w; created := created w |}
  end.

(** [!this.readyState || this.readyState === undefined ||
     this.readyState === 'loaded' || this.readyState === 'complete'] *)
Definition readyStateOk (o : scopeObject) : bool :=
  negb (truthy (this_readyState o))
  || match this_readyState o with VUndefined => true | _ => false end
  || strict_eq_str (this_readyState o) "loaded"
  || strict_eq_str (this_readyState o) "complete".

Definition mark_done (k : nat) (w : world) : world :=
  {| api := api w; this := this w; scripts := <[k := true]> (scripts w);
     created := created w |}.

(** [script.onload = script.onreadystatechange = () => {...}] firing for the
    [k]-th injected script; once it has run to the end the handler is removed,
    which the set [done] flag already covers. *)
Definition scriptOnload (k : nat) (w : world) : outcome world :=
  match (scripts w !! k : option bool) with
  | None => Returned w
  | Some done =>
      if done then Returned w
      else match this w with
           | ThisUndefined => Thrown TypeError w
           | ThisObject o =>
               if readyStateOk o then iFrameReady (mark_done k w) else Returned w
           end
  end.

(** [win.onVimeoPlayerAPIReady = () => { vimeoApi.iFrameReady(); }] *)
Definition onVimeoPlayerAPIReady (w : world) : outcome world := iFrameReady w.

(** What can happen to the loader. *)
Inductive action :=
| Enqueue (s : settings)
| ScriptEvent (k : nat)
| ApiReady.

Definition act (a : action) (w : world) : world :=
  state_of match a with
           | Enqueue s => enqueueIframe s w
           | ScriptEvent k => scriptOnload k w
           | ApiReady => onVimeoPlayerAPIReady w
           end.

Definition run (l : list action) (w : world) : world := fold_left (fun w a => act a w) l w.

(** [getVimeoId(url)]: [null] for a missing url, otherwise [parseInt] of what
    follows the last [/] of the part before the first [?]. *)
Definition getVimeoId (url : value) : completion :=
  match url with
  | VUndefined | VNull => Value VNull
  | VStr u =>
      match split "?" u with
      | part0 :: _ => Value (parseInt (substring (lastIndexOf "/" part0 + 1) part0))
      | [] => Throw TypeError
      end
  | _ => Throw TypeError   (* url.split is not a function *)
  end.

(** The script tag is inserted at most once: the first insertion sets the
    flag on the scope object, and nothing clears it. *)
Definition injected_once (w : world) : Prop :=
  scripts w = [] \/
  (length (scripts w) = 1%nat /\ exists o, this w = ThisObject o /\ this_started o = true).

End VimeoApi.

(** ** [SoundCloudApi]: the loader of [soundcloud.js] *)

Module SoundCloudApi.
Import JS.

Record settings := { iframe : nat; id : string }.

(** As for [vimeoApi], [isLoaded] is not in the object literal. *)
Record loader := {
  isSDKStarted : bool;
  isSDKLoaded : bool;
  isLoaded : bool;
  iframeQueue : list settings
}.

Record world := {
  api : loader;
  this : lexicalThis;
  scripts : list bool;
  created : list settings
}.

Definition initial (t : lexicalThis) : world :=
  {| api := {| isSDKStarted := false; isSDKLoaded := false;
               isLoaded := false; iframeQueue := [] |};
     this := t; scripts := []; created := [] |}.

(** [SC.Widget(settings.iframe)] handed to the ready callback of [settings.id]. *)
Definition createIframe (s : settings) (w : world) : outcome world :=
  Returned {| api := api w; this := this w; scripts := scripts w;
              created := created w ++ [s] |}.

(** [if (!this.isSDKStarted) { ...head.appendChild(script); this.isSDKStarted = true }] *)
Definition loadIframeApi (w : world) : outcome world :=
  match this w with
  | ThisUndefined => Thrown TypeError w
  | ThisObject o =>
      if negb (this_started o) then
        Returned {| api := api w;
                    this := ThisObject {| this_started := true;
                                          this_isLoaded := this_isLoaded o;
                                          this_loaded := this_loaded o;
                                          this_readyState := this_readyState o |};
                    scripts := scripts w ++ [false];
                    created := created w |}
      else Returned w
  end.

Definition push (s : settings) (w : world) : world :=
  {| api := {| isSDKStarted := isSDKStarted (api w);
               isSDKLoaded := isSDKLoaded (api w);
               isLoaded := isLoaded (api w);
               iframeQueue := iframeQueue (api w) ++ [s] |};
     this := this w; scripts := scripts w; created := created w |}.

Definition enqueueIframe (s : settings) (w : world) : outcome world :=
  if isLoaded (api w) then createIframe s w
  else loadIframeApi w >>> (fun w' => Returned (push s w')).

(** [this.isLoaded = true; this.isSDKLoaded = true;
     while (this.iframeQueue.length > 0) {...}] *)
Definition apiReady (w : world) : outcome world :=
  match this w with
  | ThisUndefined => Thrown TypeError w
  | ThisObject o =>
      Thrown TypeError
        {| api := api w;
           this := ThisObject {| this_started := this_started o;
                                 this_isLoaded := true;
                                 this_loaded := true;
                                 this_readyState := this_readyState o |};
           scripts := scripts w; created := created w |}
  end.

(** [!this.readyState || this.readyState === 'loaded' || this.readyState === 'complete'] *)
Definition readyStateOk (o : scopeObject) : bool :=
  negb (truthy (this_readyState o))
  || strict_eq_str (this_readyState o) "loaded"
  || strict_eq_str (this_readyState o) "complete".

Definition mark_done (k : nat) (w : world) : world :=
  {| api := api w; this := this w; scripts := <[k := true]> (scripts w);
     created := created w |}.

(** The [onload] / [onreadystatechange] handler of the [k]-th injected script. *)
Definition scriptOnload (k : nat) (w : world) : outcome world :=
  match (scripts w !! k : option bool) with
  | None => Returned w
  | Some done =>
      if done then Returned w
      else match this w with
           | ThisUndefined => Thrown TypeError w
           | ThisObject o =>
               if readyStateOk o then apiReady (mark_done k w) else Returned w
           end
  end.

Inductive action :=
| Enqueue (s : settings)
| ScriptEvent (k : nat).

Definition act (a : action) (w : world) : world :=
  state_of match a with
           | Enqueue s => enqueueIframe s w
           | ScriptEvent k => scriptOnload k w
           end.

Definition run (l : list action) (w : world) : world := fold_left (fun w a => act a w) l w.

(** The script tag is inserted at most once: the first insertion sets the
    flag on the scope object, and nothing clears it. *)
Definition injected_once (w : world) : Prop :=
  scripts w = [] \/
  (length (scripts w) = 1%nat /\ exists o, this w = ThisObject o /\ this_started o = true).

End SoundCloudApi.

(** ** What the two renderers share *)

Module Renderer.
Import JS.

(** The elements events are dispatched on: the [mediaElement] passed to
    [create] (the owner of the renderer) and any other object of the page. *)
Inductive element :=
| Owner
| Page (n : nat).

(** [createEvent(type, target)], with the [message] the error handler adds. *)
Record event := { etype : string; message : option string }.

Definition plain (name : string) : event := {| etype := name; message := None |}.

(** [setTimeout(() => mediaElement.dispatchEvent(createEvent(fires, ...)), delay)] *)
Record timer := { delay : Z; fires : string }.

(** An entry of [apiStack]: [{type: 'set', propName, value}] or
    [{type: 'call', methodName}]. *)
Inductive command :=
| SetCmd (propName : string) (v : value)
| CallCmd (methodName : string).

(** The error object a remote call is rejected with: [error.name] and
    [error.message], here [description]. *)
Record remoteError := { name : string; description : string }.

(** What a getter returns: a value, or the object built for [buffered]
    ([{start: () => 0, end: () => bufferedTime * duration, length: 1}]). *)
Inductive getResult :=
| GValue (v : value)
| GBuffered.

(** [typeof value === 'string' ? value : value[0].src]; [None] when reading
    [.src] of [value[0]] throws a [TypeError]. *)
Definition src_of (v : value) : option string :=
  match v with
  | VStr s => Some s
  | VSources (first :: _) => Some (src first)
  | _ => None
  end.

(** A command whose replay cannot throw: a [src] command carries a string
    or a non-empty list of sources. *)
Definition replayable (c : command) : bool :=
  match c with
  | SetCmd propName v =>
      if String.eqb propName "src"
      then match src_of v with Some _ => true | None => false end
      else true
  | CallCmd _ => true
  end.

(** Removing the [k]-th element of a list. *)
Definition remove_nth {A} (k : nat) (l : list A) : list A := take k l ++ drop (S k) l.

End Renderer.

(** ** The Vimeo renderer: the object built by [vimeoIframeRenderer.create] *)

Module Vimeo.
Import JS Renderer.

(** [mediaTypes.indexOf(type) > -1] *)
Definition canPlayType (type : value) : bool :=
  -1 <? indexOf ["video/vimeo"; "video/x-vimeo"] type.

(** The calls made on [vimeoPlayer]. *)
Inductive remoteCall :=
| loadVideo (videoId : value)
| play
| pause
| setCurrentTime (v : value)
| setVolume (v : value)
| setLoop (v : value)
| getVideoUrl
| getDuration
| getCurrentTime
| on (eventName : string).

(** The [then] callbacks, named after the place that attaches them. *)
Inductive thenCallback :=
| ThenSrc                       (* autoplay: vimeoPlayer.play() *)
| ThenCurrentTime (v : value)   (* currentTime = value; timeupdate in 50 ms *)
| ThenVolume (v : value)        (* volume = value; oldVolume = volume; volumechange in 50 ms *)
| ThenMute                      (* volume = 0; volumechange in 50 ms *)
| ThenUnmute                    (* volume = oldVolume; volumechange in 50 ms *)
| ThenUrl                       (* url = _url *)
| ThenLoaded                    (* duration, bufferedTime; loadedmetadata *)
| ThenProgress                  (* duration, bufferedTime; progress *)
| ThenSeconds.                  (* currentTime = seconds *)

(** A promise returned by [vimeoPlayer] and not settled yet, with the
    callbacks chained on it: [.then(...)] and [['catch'](errorHandler)]. *)
Record promise := {
  call : remoteCall;
  onFulfilled : option thenCallback;
  hasCatch : bool
}.

(** What a promise resolves with. *)
Inductive result :=
| NoResult
| NumResult (q : Q)
| StrResult (s : string).

Inductive resolution :=
| Fulfilled (r : result)
| Rejected (e : remoteError).

(** A rejection nobody handles: of a remote call without [catch], or of the
    promise whose [catch] callback threw. *)
Inductive rejection :=
| RemoteRejection (e : remoteError)
| ScriptError (e : error).

(** Everything the renderer does to the outside, in order. *)
Inductive effect :=
| Remote (c : remoteCall)
| Dispatch (target : element) (e : event)
| ConsoleLog (propName : string)
| SetDisplay (display : string)
| Unhandled (r : rejection).

(** The variables of [create] the closures share ([apiStack] ... [url]), the
    number of times the event handlers were attached ([wired]), the promises
    and timers in flight, the effects so far, and the two things read from the
    page: the owner's [autoplay] attribute and what the free identifier
    [mediaElement] of [vimeoApi.errorHandler] resolves to, if anything. *)
Record state := {
  apiStack : list command;
  vimeoApiReady : bool;
  vimeoPlayer : option nat;
  paused : bool;
  volume : value;
  oldVolume : value;
  currentTime : value;
  bufferedTime : Q;
  ended : bool;
  duration : Q;
  url : string;
  wired : nat;
  pending : list promise;
  timers : list timer;
  trace : list effect;
  autoplay : value;
  global_mediaElement : option element
}.

Definition set_apiStack (x : list command) (st : state) : state :=
  {| apiStack := x; vimeoApiReady := vimeoApiReady st; vimeoPlayer := vimeoPlayer st;
     paused := paused st; volume := volume st; oldVolume := oldVolume st;
     currentTime := currentTime st; bufferedTime := bufferedTime st; ended := ended st;
     duration := duration st; url := url st; wired := wired st; pending := pending st;
     timers := timers st; trace := trace st; autoplay := autoplay st;
     global_mediaElement := global_mediaElement st |}.

Definition set_vimeoApiReady (x : bool) (st : state) : state :=
  {| apiStack := apiStack st; vimeoApiReady := x; vimeoPlayer := vimeoPlayer st;
     paused := paused st; volume := volume st; oldVolume := oldVolume st;
     currentTime := currentTime st; bufferedTime := bufferedTime st; ended := ended st;
     duration := duration st; url := url st; wired := wired st; pending := pending st;
     timers := timers st; trace := trace st; autoplay := autoplay st;
     global_mediaElement := global_mediaElement st |}.

Definition set_vimeoPlayer (x : option nat) (st : state) : state :=
  {| apiStack := apiStack st; vimeoApiReady := vimeoApiReady st; vimeoPlayer := x;
     paused := paused st; volume := volume st; oldVolume := oldVolume st;
     currentTime := currentTime st; bufferedTime := bufferedTime st; ended := ended st;
     duration := duration st; url := url st; wired := wired st; pending := pending st;
     timers := timers st; trace := trace st; autoplay := autoplay st;
     global_mediaElement := global_mediaElement st |}.

Definition set_paused (x : bool) (st : state) : state :=
  {| apiStack := apiStack st; vimeoApiReady := vimeoApiReady st;
     vimeoPlayer := vimeoPlayer st; paused := x; volume := volume st;
     oldVolume := oldVolume st; currentTime := currentTime st;
     bufferedTime := bufferedTime st; ended := ended st; duration := duration st;
     url := url st; wired := wired st; pending := pending st; timers := timers st;
     trace := trace st; autoplay := autoplay st;
     global_mediaElement := global_mediaElement st |}.

Definition set_volume (x : value) (st : state) : state :=
  {| apiStack := apiStack st; vimeoApiReady := vimeoApiReady st;
     vimeoPlayer := vimeoPlayer st; paused := paused st; volume := x;
     oldVolume := oldVolume st; currentTime := currentTime st;
     bufferedTime := bufferedTime st; ended := ended st; duration := duration st;
     url := url st; wired := wired st; pending := pending st; timers := timers st;
     trace := trace st; autoplay := autoplay st;
     global_mediaElement := global_mediaElement st |}.

Definition set_oldVolume (x : value) (st : state) : state :=
  {| apiStack := apiStack st; vimeoApiReady := vimeoApiReady st;
     vimeoPlayer := vimeoPlayer st; paused := paused st; volume := volume st;
     oldVolume := x; currentTime := currentTime st; bufferedTime := bufferedTime st;
     ended := ended st; duration := duration st; url := url st; wired := wired st;
     pending := pending st; timers := timers st; trace := trace st;
     autoplay := autoplay st; global_mediaElement := global_mediaElement st |}.

Definition set_currentTime (x : value) (st : state) : state :=
  {| apiStack := apiStack st; vimeoApiReady := vimeoApiReady st;
     vimeoPlayer := vimeoPlayer st; paused := paused st; volume := volume st;
     oldVolume := oldVolume st; currentTime := x; bufferedTime := bufferedTime st;
     ended := ended st; duration := duration st; url := url st; wired := wired st;
     pending := pending st; timers := timers st; trace := trace st;
     autoplay := autoplay st; global_mediaElement := global_mediaElement st |}.

Definition set_bufferedTime (x : Q) (st : state) : state :=
  {| apiStack := apiStack st; vimeoApiReady := vimeoApiReady st;
     vimeoPlayer := vimeoPlayer st; paused := paused st; volume := volume st;
     oldVolume := oldVolume st; currentTime := currentTime st; bufferedTime := x;
     ended := ended st; duration := duration st; url := url st; wired := wired st;
     pending := pending st; timers := timers st; trace := trace st;
     autoplay := autoplay st; global_mediaElement := global_mediaElement st |}.

Definition set_ended (x : bool) (st : state) : state :=
  {| apiStack := apiStack st; vimeoApiReady := vimeoApiReady st;
     vimeoPlayer := vimeoPlayer st; paused := paused st; volume := volume st;
     oldVolume := oldVolume st; currentTime := currentTime st;
     bufferedTime := bufferedTime st; ended := x; duration := duration st;
     url := url st; wired := wired st; pending := pending st; timers := timers st;
     trace := trace st; autoplay := autoplay st;
     global_mediaElement := global_mediaElement st |}.

Definition set_duration (x : Q) (st : state) : state :=
  {| apiStack := apiStack st; vimeoApiReady := vimeoApiReady st;
     vimeoPlayer := vimeoPlayer st; paused := paused st; volume := volume st;
     oldVolume := oldVolume st; currentTime := currentTime st;
     bufferedTime := bufferedTime st; ended := ended st; duration := x; url := url st;
     wired := wired st; pending := pending st; timers := timers st; trace := trace st;
     autoplay := autoplay st; global_mediaElement := global_mediaElement st |}.

Definition set_url (x : string) (st : state) : state :=
  {| apiStack := apiStack st; vimeoApiReady := vimeoApiReady st;
     vimeoPlayer := vimeoPlayer st; paused := paused st; volume := volume st;
     oldVolume := oldVolume st; currentTime := currentTime st;
     bufferedTime := bufferedTime st; ended := ended st; duration := duration st;
     url := x; wired := wired st; pending := pending st; timers := timers st;
     trace := trace st; autoplay := autoplay st;
     global_mediaElement := global_mediaElement st |}.

Definition set_wired (x : nat) (st : state) : state :=
  {| apiStack := apiStack st; vimeoApiReady := vimeoApiReady st;
     vimeoPlayer := vimeoPlayer st; paused := paused st; volume := volume st;
     oldVolume := oldVolume st; currentTime := currentTime st;
     bufferedTime := bufferedTime st; ended := ended st; duration := duration st;
     url := url st; wired := x; pending := pending st; timers := timers st;
     trace := trace st; autoplay := autoplay st;
     global_mediaElement := global_mediaElement st |}.

Definition set_pending (x : list promise) (st : state) : state :=
  {| apiStack := apiStack st; vimeoApiReady := vimeoApiReady st;
     vimeoPlayer := vimeoPlayer st; paused := paused st; volume := volume st;
     oldVolume := oldVolume st; currentTime := currentTime st;
     bufferedTime := bufferedTime st; ended := ended st; duration := duration st;
     url := url st; wired := wired st; pending := x; timers := timers st;
     trace := trace st; autoplay := autoplay st;
     global_mediaElement := global_mediaElement st |}.

Definition set_timers (x : list timer) (st : state) : state :=
  {| apiStack := apiStack st; vimeoApiReady := vimeoApiReady st;
     vimeoPlayer := vimeoPlayer st; paused := paused st; volume := volume st;
     oldVolume := oldVolume st; currentTime := currentTime st;
     bufferedTime := bufferedTime st; ended := ended st; duration := duration st;
     url := url st; wired := wired st; pending := pending st; timers := x;
     trace := trace st; autoplay := autoplay st;
     global_mediaElement := global_mediaElement st |}.

Definition set_trace (x : list effect) (st : state) : state :=
  {| apiStack := apiStack st; vimeoApiReady := vimeoApiReady st;
     vimeoPlayer := vimeoPlayer st; paused := paused st; volume := volume st;
     oldVolume := oldVolume st; currentTime := currentTime st;
     bufferedTime := bufferedTime st; ended := ended st; duration := duration st;
     url := url st; wired := wired st; pending := pending st; timers := timers st;
     trace := x; autoplay := autoplay st;
     global_mediaElement := global_mediaElement st |}.

(** The state [create] leaves behind. *)
Definition create (autoplayAttr : value) (g : option element) : state :=
  {| apiStack := []; vimeoApiReady := false; vimeoPlayer := None;
     paused := true; volume := VNum 1; oldVolume := VNum 1; currentTime := VNum 0;
     bufferedTime := 0; ended := false; duration := 0; url := EmptyString;
     wired := 0; pending := []; timers := []; trace := [];
     autoplay := autoplayAttr; global_mediaElement := g |}.

Definition emit (e : effect) (st : state) : state := set_trace (trace st ++ [e]) st.

Definition dispatchEvent (target : element) (e : event) (st : state) : state :=
  emit (Dispatch target e) st.

(** [vimeoPlayer.<call>(...)] with the callbacks chained on the promise it returns. *)
Definition request (c : remoteCall) (cb : option thenCallback) (catch : bool)
    (st : state) : state :=
  set_pending (pending st ++ [{| call := c; onFulfilled := cb; hasCatch := catch |}])
    (emit (Remote c) st).

Definition setTimeout (name : string) (ms : Z) (st : state) : state :=
  set_timers (timers st ++ [{| delay := ms; fires := name |}]) st.

(** [event = createEvent('error', target);
     event.message = error.name + ': ' + error.message] *)
Definition errorEvent (e : remoteError) : event :=
  {| etype := "error";
     message := Some (String.append (name e) (String.append ": " (description e))) |}.

(** [vimeoApi.errorHandler(error, target)]: the event is built, then
    dispatched on whatever the free identifier [mediaElement] denotes there;
    [vimeoApi] is defined at module level, outside [create], whose parameter
    of that name is out of scope. *)
Definition errorHandler (e : remoteError) (st : state) : outcome state :=
  let event := errorEvent e in
  match global_mediaElement st with
  | Some target => Returned (dispatchEvent target event st)
  | None => Thrown ReferenceError st
  end.

(** [vimeo['get' + capName]()] *)
Definition getProp (propName : string) (st : state) : getResult * state :=
  match vimeoPlayer st with
  | Some _ =>
      if String.eqb propName "currentTime" then (GValue (currentTime st), st)
      else if String.eqb propName "duration" then (GValue (VNum (duration st)), st)
      else if String.eqb propName "volume" then (GValue (volume st), st)
      else if String.eqb propName "muted" then (GValue (VBool (strict_eq_zero (volume st))), st)
      else if String.eqb propName "paused" then (GValue (VBool (paused st)), st)
      else if String.eqb propName "ended" then (GValue (VBool (ended st)), st)
      else if String.eqb propName "src" then
        (GValue (VStr (url st)), request getVideoUrl (Some ThenUrl) false st)
      else if String.eqb propName "buffered" then (GBuffered, st)
      else (GValue VNull, st)
  | None => (GValue VNull, st)
  end.

(** [end()] of the object returned for [buffered]. *)
Definition buffered_end (st : state) : Q := bufferedTime st * duration st.

Definition push (c : command) (st : state) : state := set_apiStack (apiStack st ++ [c]) st.

(** [vimeo['set' + capName](value)] *)
Definition setProp (propName : string) (v : value) (st : state) : outcome state :=
  match vimeoPlayer st with
  | Some _ =>
      if String.eqb propName "src" then
        match src_of v with
        | Some u =>
            match VimeoApi.getVimeoId (VStr u) with
            | Value videoId => Returned (request (loadVideo videoId) (Some ThenSrc) true st)
            | Throw e => Thrown e st
            end
        | None => Thrown TypeError st
        end
      else if String.eqb propName "currentTime" then
        Returned (request (setCurrentTime v) (Some (ThenCurrentTime v)) true st)
      else if String.eqb propName "volume" then
        Returned (request (setVolume v) (Some (ThenVolume v)) true st)
      else if String.eqb propName "loop" then
        Returned (request (setLoop v) None true st)
      else if String.eqb propName "muted" then
        if truthy v then Returned (request (setVolume (VNum 0)) (Some ThenMute) true st)
        else Returned (request (setVolume (oldVolume st)) (Some ThenUnmute) true st)
      else Returned (emit (ConsoleLog propName) st)
  | None =>
      Returned (push (SetCmd propName v) st)
  end.

(** [vimeo[methodName]()]; the promise of [play] and [pause] is returned to
    the caller with nothing chained on it. *)
Definition callMethod (methodName : string) (st : state) : state :=
  match vimeoPlayer st with
  | Some _ =>
      if String.eqb methodName "play" then request play None false st
      else if String.eqb methodName "pause" then request pause None false st
      else st
  | None => push (CallCmd methodName) st
  end.

(** One turn of the replay loop: [vimeo['set' + capName](stackItem.value)] or
    [vimeo[stackItem.methodName]()]. *)
Definition replayItem (item : command) (st : state) : outcome state :=
  match item with
  | SetCmd propName v => setProp propName v st
  | CallCmd methodName => Returned (callMethod methodName st)
  end.

(** [for (i = 0, il = apiStack.length; i < il; i++) { stackItem = apiStack[i]; ... }]
    with [n = il - i] turns to go. *)
Fixpoint replayLoop (n : nat) (i : nat) (st : state) : outcome state :=
  match n with
  | O => Returned st
  | S n' =>
      match (apiStack st !! i : option command) with
      | Some stackItem => replayItem stackItem st >>> replayLoop n' (S i)
      | None => Thrown TypeError st
      end
  end.

Definition playerEvents : list string :=
  ["loaded"; "progress"; "timeupdate"; "play"; "pause"; "ended"].

Definition initialEvents : list string :=
  ["rendererready"; "loadeddata"; "loadedmetadata"; "canplay"].

(** After the replay: the two mouse listeners on the iframe, the six
    [vimeoPlayer.on(...)] subscriptions and the initial events. *)
Definition wire (st : state) : state :=
  let st1 := fold_left (fun s e => emit (Remote (on e)) s) playerEvents st in
  let st2 := set_wired (S (wired st1)) st1 in
  fold_left (fun s e => dispatchEvent Owner (plain e) s) initialEvents st2.

(** [vimeoApiReady = true; mediaElement.vimeoPlayer = vimeoPlayer = _vimeoPlayer] *)
Definition attach (player : nat) (st : state) : state :=
  set_vimeoPlayer (Some player) (set_vimeoApiReady true st).

(** [win['__ready__' + vimeo.id](_vimeoPlayer)] *)
Definition ready (player : nat) (st : state) : outcome state :=
  let st0 := attach player st in
  replayLoop (length (apiStack st0)) 0 st0 >>> (fun st1 => Returned (wire st1)).

(** [duration = loadProgress; if (duration > 0) bufferedTime = duration * loadProgress] *)
Definition storeDuration (q : Q) (st : state) : state :=
  let st1 := set_duration q st in
  if Qlt_le_dec 0 q then set_bufferedTime (q * q) st1 else st1.

(** A [then] callback running with the value its promise resolved with;
    [None] when the widget cannot resolve that call with such a value. *)
Definition runThen (cb : thenCallback) (r : result) (st : state) : option state :=
  match cb, r with
  | ThenSrc, _ =>
      Some (if truthy (autoplay st) then request play None false st else st)
  | ThenCurrentTime v, _ =>
      Some (setTimeout "timeupdate" 50 (set_currentTime v st))
  | ThenVolume v, _ =>
      Some (setTimeout "volumechange" 50 (set_oldVolume v (set_volume v st)))
  | ThenMute, _ =>
      Some (setTimeout "volumechange" 50 (set_volume (VNum 0) st))
  | ThenUnmute, _ =>
      Some (setTimeout "volumechange" 50 (set_volume (oldVolume st) st))
  | ThenUrl, StrResult s => Some (set_url s st)
  | ThenLoaded, NumResult q =>
      Some (dispatchEvent Owner (plain "loadedmetadata") (storeDuration q st))
  | ThenProgress, NumResult q =>
      Some (dispatchEvent Owner (plain "progress") (storeDuration q st))
  | ThenSeconds, NumResult q => Some (set_currentTime (VNum q) st)
  | _, _ => None
  end.

(** The [catch] callback: an exception of [errorHandler] rejects the chained
    promise, which nobody handles. *)
Definition runCatch (e : remoteError) (st : state) : state :=
  match errorHandler e st with
  | Returned st' => st'
  | Thrown err st' => emit (Unhandled (ScriptError err)) st'
  end.

(** The widget settles the [k]-th promise in flight. *)
Definition settle (k : nat) (r : resolution) (st : state) : option state :=
  match (pending st !! k : option promise) with
  | None => None
  | Some p =>
      let st' := set_pending (remove_nth k (pending st)) st in
      match r with
      | Fulfilled res =>
          match onFulfilled p with
          | Some cb => runThen cb res st'
          | None => Some st'
          end
      | Rejected e =>
          Some (if hasCatch p then runCatch e st'
                else emit (Unhandled (RemoteRejection e)) st')
      end
  end.

(** The [k]-th timer expires. *)
Definition timeout (k : nat) (st : state) : option state :=
  match (timers st !! k : option timer) with
  | None => None
  | Some t =>
      Some (dispatchEvent Owner (plain (fires t))
              (set_timers (remove_nth k (timers st)) st))
  end.

(** What the widget and the iframe can signal; [getPaused] is the answer of
    [vimeo.mediaElement.getPaused()]. *)
Inductive signal :=
| Loaded
| Progress (getPaused : bool)
| Timeupdate (getPaused : bool)
| Play
| Pause
| Ended
| Mouse (type : string).

(** One run of the handler attached for a signal. *)
Definition handler (s : signal) (st : state) : state :=
  match s with
  | Loaded => request getDuration (Some ThenLoaded) true st
  | Progress p => request getDuration (Some ThenProgress) true (set_paused p st)
  | Timeupdate p =>
      dispatchEvent Owner (plain "timeupdate")
        (request getCurrentTime (Some ThenSeconds) false
           (set_ended false (set_paused p st)))
  | Play =>
      dispatchEvent Owner (plain "play")
        (request play None true (set_ended false (set_paused false st)))
  | Pause =>
      dispatchEvent Owner (plain "pause")
        (request pause None true (set_ended false (set_paused true st)))
  | Ended =>
      dispatchEvent Owner (plain "ended") (set_ended true (set_paused false st))
  | Mouse type => dispatchEvent Owner (plain type) st
  end.

(** A signal runs every handler attached for it. *)
Definition signalled (s : signal) (st : state) : state :=
  Nat.iter (wired st) (handler s) st.

(** [vimeo.hide()]: [vimeo.pause(); if (vimeoPlayer) vimeoContainer.style.display = 'none'] *)
Definition hide (st : state) : state :=
  let st1 := callMethod "pause" st in
  match vimeoPlayer st1 with
  | Some _ => emit (SetDisplay "none") st1
  | None => st1
  end.

(** [vimeo.show()] *)
Definition show (st : state) : state :=
  match vimeoPlayer st with
  | Some _ => emit (SetDisplay EmptyString) st
  | None => st
  end.

(** Everything that can happen to a renderer once [create] has returned. *)
Inductive op :=
| Get (propName : string)
| Assign (propName : string) (v : value)
| Invoke (methodName : string)
| Hide
| Unhide
| Ready (player : nat)
| Settle (k : nat) (r : resolution)
| Timeout (k : nat)
| Signal (s : signal).

Definition step (o : op) (st : state) : state :=
  match o with
  | Get propName => snd (getProp propName st)
  | Assign propName v => state_of (setProp propName v st)
  | Invoke methodName => callMethod methodName st
  | Hide => hide st
  | Unhide => show st
  | Ready player => state_of (ready player st)
  | Settle k r => default st (settle k r st)
  | Timeout k => default st (timeout k st)
  | Signal s => signalled s st
  end.

Definition run (ops : list op) (st : state) : state := fold_left (fun s o => step o s) ops st.

(** The calls made on the widget so far. *)
Definition remoteCalls (st : state) : list remoteCall :=
  omap (fun e => match e with Remote c => Some c | _ => None end) (trace st).

(** The events dispatched on [target] so far. *)
Definition dispatched (target : element) (st : state) : list event :=
  omap (fun e => match e with
                 | Dispatch t ev =>
                     match target, t with
                     | Owner, Owner => Some ev
                     | Page a, Page b => if Nat.eqb a b then Some ev else None
                     | _, _ => None
                     end
                 | _ => None
                 end) (trace st).

(** The caller invoking, one after the other and once each, the setter or
    method of every command of [cs]. *)
Definition invokeAll (cs : list command) (st : state) : state :=
  fold_left (fun s c => state_of (replayItem c s)) cs st.

(** Commands [cs] issued on [st0] before the ready signal are queued as
    issued, and the ready callback then returns having invoked their setters
    and methods in that order, once each, before it wires the events. *)
Definition replays_in_order (player : nat) (cs : list command) (st0 : state) : Prop :=
  let queued := invokeAll cs st0 in
  apiStack queued = apiStack st0 ++ cs
  /\ ready player queued = Returned (wire (invokeAll cs (attach player queued))).

(** Between [st] and [st'] exactly one event was dispatched on the owner,
    the [error] event of [e]. *)
Definition error_reported (e : remoteError) (st st' : state) : Prop :=
  dispatched Owner st' = dispatched Owner st ++ [errorEvent e].

(** Before the ready signal: no widget, nothing wired, nothing in flight and
    no call made on the widget. *)
Definition idle (st : state) : Prop :=
  vimeoPlayer st = None /\ wired st = 0%nat /\ pending st = [] /\ timers st = []
  /\ remoteCalls st = [].

Definition is_ready (o : op) : bool :=
  match o with Ready _ => true | _ => false end.

(** What every call leaves alone: the two values read from the page, and,
    once the widget is there, the widget reference being set and the queue. *)
Definition keeps (st st' : state) : Prop :=
  autoplay st' = autoplay st
  /\ global_mediaElement st' = global_mediaElement st
  /\ (is_Some (vimeoPlayer st) -> is_Some (vimeoPlayer st') /\ apiStack st' = apiStack st).

End Vimeo.

(** ** The SoundCloud renderer: the object built by [SoundCloudIframeRenderer.create] *)

Module SoundCloud.
Import JS Renderer.

(** [mediaTypes.indexOf(type) > -1] *)
Definition canPlayType (type : value) : bool :=
  -1 <? indexOf ["video/soundcloud"; "video/x-soundcloud"] type.

(** The calls made on [scPlayer]; [seekTo seconds] stands for
    [scPlayer.seekTo(seconds * 1000)]. *)
Inductive remoteCall :=
| load (url : string)
| seekTo (seconds : value)
| setVolume (v : value)
| play
| pause
| getPosition
| getDuration
| bindEvent (eventName : string)
| destroy.

(** The callbacks handed to [getPosition] and [getDuration]. *)
Inductive callback :=
| OnPosition        (* PLAY_PROGRESS: currentTime = _currentTime / 1000; timeupdate *)
| OnReadyDuration   (* READY: duration = _duration / 1000; loadedmetadata *)
| OnLoadProgress    (* LOAD_PROGRESS: bufferedTime = duration * loadProgress; progress *)
| OnLoadDuration.   (* LOAD_PROGRESS: duration = _duration; loadedmetadata *)

Inductive effect :=
| Remote (c : remoteCall)
| Dispatch (target : element) (e : event)
| ConsoleLog (propName : string)
| SetDisplay (display : string).

(** The variables of [create] the closures share, the number of times the
    widget events were bound ([wired]), the callbacks and timers in flight and
    the effects so far.  [scIframe] holds the [src] of the iframe [create]
    builds. *)
Record state := {
  apiStack : list command;
  scPlayerReady : bool;
  scPlayer : option nat;
  scIframe : option string;
  currentTime : Q;
  duration : Q;
  bufferedTime : Q;
  paused : bool;
  volume : value;
  muted : bool;
  ended : bool;
  wired : nat;
  callbacks : list callback;
  timers : list timer;
  trace : list effect
}.

Definition set_apiStack (x : list command) (st : state) : state :=
  {| apiStack := x; scPlayerReady := scPlayerReady st; scPlayer := scPlayer st;
     scIframe := scIframe st; currentTime := currentTime st; duration := duration st;
     bufferedTime := bufferedTime st; paused := paused st; volume := volume st;
     muted := muted st; ended := ended st; wired := wired st;
     callbacks := callbacks st; timers := timers st; trace := trace st |}.

Definition set_scPlayerReady (x : bool) (st : state) : state :=
  {| apiStack := apiStack st; scPlayerReady := x; scPlayer := scPlayer st;
     scIframe := scIframe st; currentTime := currentTime st; duration := duration st;
     bufferedTime := bufferedTime st; paused := paused st; volume := volume st;
     muted := muted st; ended := ended st; wired := wired st;
     callbacks := callbacks st; timers := timers st; trace := trace st |}.

Definition set_scPlayer (x : option nat) (st : state) : state :=
  {| apiStack := apiStack st; scPlayerReady := scPlayerReady st; scPlayer := x;
     scIframe := scIframe st; currentTime := currentTime st; duration := duration st;
     bufferedTime := bufferedTime st; paused := paused st; volume := volume st;
     muted := muted st; ended := ended st; wired := wired st;
     callbacks := callbacks st; timers := timers st; trace := trace st |}.

Definition set_currentTime (x : Q) (st : state) : state :=
  {| apiStack := apiStack st; scPlayerReady := scPlayerReady st;
     scPlayer := scPlayer st; scIframe := scIframe st; currentTime := x;
     duration := duration st; bufferedTime := bufferedTime st; paused := paused st;
     volume := volume st; muted := muted st; ended := ended st; wired := wired st;
     callbacks := callbacks st; timers := timers st; trace := trace st |}.

Definition set_duration (x : Q) (st : state) : state :=
  {| apiStack := apiStack st; scPlayerReady := scPlayerReady st;
     scPlayer := scPlayer st; scIframe := scIframe st; currentTime := currentTime st;
     duration := x; bufferedTime := bufferedTime st; paused := paused st;
     volume := volume st; muted := muted st; ended := ended st; wired := wired st;
     callbacks := callbacks st; timers := timers st; trace := trace st |}.

Definition set_bufferedTime (x : Q) (st : state) : state :=
  {| apiStack := apiStack st; scPlayerReady := scPlayerReady st;
     scPlayer := scPlayer st; scIframe := scIframe st; currentTime := currentTime st;
     duration := duration st; bufferedTime := x; paused := paused st;
     volume := volume st; muted := muted st; ended := ended st; wired := wired st;
     callbacks := callbacks st; timers := timers st; trace := trace st |}.

Definition set_paused (x : bool) (st : state) : state :=
  {| apiStack := apiStack st; scPlayerReady := scPlayerReady st;
     scPlayer := scPlayer st; scIframe := scIframe st; currentTime := currentTime st;
     duration := duration st; bufferedTime := bufferedTime st; paused := x;
     volume := volume st; muted := muted st; ended := ended st; wired := wired st;
     callbacks := callbacks st; timers := timers st; trace := trace st |}.

Definition set_ended (x : bool) (st : state) : state :=
  {| apiStack := apiStack st; scPlayerReady := scPlayerReady st;
     scPlayer := scPlayer st; scIframe := scIframe st; currentTime := currentTime st;
     duration := duration st; bufferedTime := bufferedTime st; paused := paused st;
     volume := volume st; muted := muted st; ended := x; wired := wired st;
     callbacks := callbacks st; timers := timers st; trace := trace st |}.

Definition set_wired (x : nat) (st : state) : state :=
  {| apiStack := apiStack st; scPlayerReady := scPlayerReady st;
     scPlayer := scPlayer st; scIframe := scIframe st; currentTime := currentTime st;
     duration := duration st; bufferedTime := bufferedTime st; paused := paused st;
     volume := volume st; muted := muted st; ended := ended st; wired := x;
     callbacks := callbacks st; timers := timers st; trace := trace st |}.

Definition set_callbacks (x : list callback) (st : state) : state :=
  {| apiStack := apiStack st; scPlayerReady := scPlayerReady st;
     scPlayer := scPlayer st; scIframe := scIframe st; currentTime := currentTime st;
     duration := duration st; bufferedTime := bufferedTime st; paused := paused st;
     volume := volume st; muted := muted st; ended := ended st; wired := wired st;
     callbacks := x; timers := timers st; trace := trace st |}.

Definition set_timers (x : list timer) (st : state) : state :=
  {| apiStack := apiStack st; scPlayerReady := scPlayerReady st;
     scPlayer := scPlayer st; scIframe := scIframe st; currentTime := currentTime st;
     duration := duration st; bufferedTime := bufferedTime st; paused := paused st;
     volume := volume st; muted := muted st; ended := ended st; wired := wired st;
     callbacks := callbacks st; timers := x; trace := trace st |}.

Definition set_trace (x : list effect) (st : state) : state :=
  {| apiStack := apiStack st; scPlayerReady := scPlayerReady st;
     scPlayer := scPlayer st; scIframe := scIframe st; currentTime := currentTime st;
     duration := duration st; bufferedTime := bufferedTime st; paused := paused st;
     volume := volume st; muted := muted st; ended := ended st; wired := wired st;
     callbacks := callbacks st; timers := timers st; trace := x |}.

(** The state [create] leaves behind; [src0] is [mediaFiles[0].src]. *)
Definition create (src0 : string) : state :=
  {| apiStack := []; scPlayerReady := false; scPlayer := None; scIframe := Some src0;
     currentTime := 0; duration := 0; bufferedTime := 0; paused := true;
     volume := VNum 1; muted := false; ended := false;
     wired := 0; callbacks := []; timers := []; trace := [] |}.

Definition emit (e : effect) (st : state) : state := set_trace (trace st ++ [e]) st.

Definition dispatchEvent (target : element) (e : event) (st : state) : state :=
  emit (Dispatch target e) st.

Definition remote (c : remoteCall) (st : state) : state := emit (Remote c) st.

(** [scPlayer.getPosition(cb)] / [scPlayer.getDuration(cb)] *)
Definition query (c : remoteCall) (cb : callback) (st : state) : state :=
  set_callbacks (callbacks st ++ [cb]) (remote c st).

Definition setTimeout (name : string) (ms : Z) (st : state) : state :=
  set_timers (timers st ++ [{| delay := ms; fires := name |}]) st.

(** [sc['get' + capName]()] *)
Definition getProp (propName : string) (st : state) : getResult * state :=
  match scPlayer st with
  | Some _ =>
      if String.eqb propName "currentTime" then (GValue (VNum (currentTime st)), st)
      else if String.eqb propName "duration" then (GValue (VNum (duration st)), st)
      else if String.eqb propName "volume" then (GValue (volume st), st)
      else if String.eqb propName "paused" then (GValue (VBool (paused st)), st)
      else if String.eqb propName "ended" then (GValue (VBool (ended st)), st)
      else if String.eqb propName "muted" then (GValue (VBool (muted st)), st)
      else if String.eqb propName "buffered" then (GBuffered, st)
      else if String.eqb propName "src" then
        (GValue (VStr (match scIframe st with Some s => s | None => EmptyString end)), st)
      else (GValue VNull, st)
  | None => (GValue VNull, st)
  end.

Definition buffered_end (st : state) : Q := bufferedTime st * duration st.

Definition push (c : command) (st : state) : state := set_apiStack (apiStack st ++ [c]) st.

(** [sc['set' + capName](value)] *)
Definition setProp (propName : string) (v : value) (st : state) : outcome state :=
  match scPlayer st with
  | Some _ =>
      if String.eqb propName "src" then
        match src_of v with
        | Some u => Returned (remote (load u) st)
        | None => Thrown TypeError st
        end
      else if String.eqb propName "currentTime" then
        Returned (remote (seekTo v) st)
      else if String.eqb propName "muted" then
        Returned (setTimeout "volumechange" 50
                    (remote (setVolume (if truthy v then VNum 0 else VNum 1)) st))
      else if String.eqb propName "volume" then
        Returned (setTimeout "volumechange" 50 (remote (setVolume v) st))
      else Returned (emit (ConsoleLog propName) st)
  | None =>
      Returned (push (SetCmd propName v) st)
  end.

(** [sc[methodName]()] *)
Definition callMethod (methodName : string) (st : state) : state :=
  match scPlayer st with
  | Some _ =>
      if String.eqb methodName "play" then remote play st
      else if String.eqb methodName "pause" then remote pause st
      else st
  | None => push (CallCmd methodName) st
  end.

Definition replayItem (item : command) (st : state) : outcome state :=
  match item with
  | SetCmd propName v => setProp propName v st
  | CallCmd methodName => Returned (callMethod methodName st)
  end.

(** [for (i = 0, il = apiStack.length; i < il; i++) { stackItem = apiStack[i]; ... }]
    with [n = il - i] turns to go. *)
Fixpoint replayLoop (n : nat) (i : nat) (st : state) : outcome state :=
  match n with
  | O => Returned st
  | S n' =>
      match (apiStack st !! i : option command) with
      | Some stackItem => replayItem stackItem st >>> replayLoop n' (S i)
      | None => Thrown TypeError st
      end
  end.

(** [SC.Widget.Events]: PLAY_PROGRESS, PAUSE, PLAY, FINISHED, READY, LOAD_PROGRESS. *)
Definition widgetEvents : list string :=
  ["playProgress"; "pause"; "play"; "finish"; "ready"; "loadProgress"].

Definition initEvents : list string :=
  ["rendererready"; "loadeddata"; "loadedmetadata"; "canplay"].

(** After the replay: the six [scPlayer.bind(...)] and the initial events. *)
Definition wire (st : state) : state :=
  let st1 := fold_left (fun s e => remote (bindEvent e) s) widgetEvents st in
  let st2 := set_wired (S (wired st1)) st1 in
  fold_left (fun s e => dispatchEvent Owner (plain e) s) initEvents st2.

(** [scPlayerReady = true; mediaElement.scPlayer = scPlayer = _scPlayer] *)
Definition attach (player : nat) (st : state) : state :=
  set_scPlayer (Some player) (set_scPlayerReady true st).

(** [win['__ready__' + sc.id](_scPlayer)] *)
Definition ready (player : nat) (st : state) : outcome state :=
  let st0 := attach player st in
  replayLoop (length (apiStack st0)) 0 st0 >>> (fun st1 => Returned (wire st1)).

(** A callback running with the number the widget answers. *)
Definition runCallback (cb : callback) (q : Q) (st : state) : state :=
  match cb with
  | OnPosition =>
      dispatchEvent Owner (plain "timeupdate") (set_currentTime (q / 1000) st)
  | OnReadyDuration =>
      dispatchEvent Owner (plain "loadedmetadata") (set_duration (q / 1000) st)
  | OnLoadProgress =>
      if Qlt_le_dec 0 (duration st)
      then dispatchEvent Owner (plain "progress") (set_bufferedTime (duration st * q) st)
      else st
  | OnLoadDuration =>
      dispatchEvent Owner (plain "loadedmetadata") (set_duration q st)
  end.

(** The widget answers the [k]-th query in flight. *)
Definition answer (k : nat) (q : Q) (st : state) : option state :=
  match (callbacks st !! k : option callback) with
  | None => None
  | Some cb => Some (runCallback cb q (set_callbacks (remove_nth k (callbacks st)) st))
  end.

(** The [k]-th timer expires. *)
Definition timeout (k : nat) (st : state) : option state :=
  match (timers st !! k : option timer) with
  | None => None
  | Some t =>
      Some (dispatchEvent Owner (plain (fires t))
              (set_timers (remove_nth k (timers st)) st))
  end.

(** The widget events. *)
Inductive signal :=
| PlayProgress
| Pause
| Play
| Finished
| WidgetReady
| LoadProgress.

(** One run of the handler bound to a widget event. *)
Definition handler (s : signal) (st : state) : state :=
  match s with
  | PlayProgress => query getPosition OnPosition (set_ended false (set_paused false st))
  | Pause => dispatchEvent Owner (plain "pause") (set_paused true st)
  | Play => dispatchEvent Owner (plain "play") (set_ended false (set_paused false st))
  | Finished => dispatchEvent Owner (plain "ended") (set_ended true (set_paused false st))
  | WidgetReady => query getDuration OnReadyDuration st
  | LoadProgress => query getDuration OnLoadDuration (query getDuration OnLoadProgress st)
  end.

Definition signalled (s : signal) (st : state) : state :=
  Nat.iter (wired st) (handler s) st.

(** [sc.hide()]: [sc.pause(); if (scIframe) scIframe.style.display = 'none'] *)
Definition hide (st : state) : state :=
  let st1 := callMethod "pause" st in
  match scIframe st1 with
  | Some _ => emit (SetDisplay "none") st1
  | None => st1
  end.

(** [sc.show()] *)
Definition show (st : state) : state :=
  match scIframe st with
  | Some _ => emit (SetDisplay EmptyString) st
  | None => st
  end.

(** [sc.destroy()]: [scPlayer.destroy()], a [TypeError] while [scPlayer] is null. *)
Definition destroyPlayer (st : state) : outcome state :=
  match scPlayer st with
  | Some _ => Returned (remote destroy st)
  | None => Thrown TypeError st
  end.

(** Everything that can happen to a renderer once [create] has returned. *)
Inductive op :=
| Get (propName : string)
| Assign (propName : string) (v : value)
| Invoke (methodName : string)
| Hide
| Unhide
| SetSize
| Destroy
| Ready (player : nat)
| Answer (k : nat) (q : Q)
| Timeout (k : nat)
| Signal (s : signal).

Definition step (o : op) (st : state) : state :=
  match o with
  | Get propName => snd (getProp propName st)
  | Assign propName v => state_of (setProp propName v st)
  | Invoke methodName => callMethod methodName st
  | Hide => hide st
  | Unhide => show st
  | SetSize => st
  | Destroy => state_of (destroyPlayer st)
  | Ready player => state_of (ready player st)
  | Answer k q => default st (answer k q st)
  | Timeout k => default st (timeout k st)
  | Signal s => signalled s st
  end.

Definition run (ops : list op) (st : state) : state := fold_left (fun s o => step o s) ops st.

Definition remoteCalls (st : state) : list remoteCall :=
  omap (fun e => match e with Remote c => Some c | _ => None end) (trace st).

Definition dispatched (target : element) (st : state) : list event :=
  omap (fun e => match e with
                 | Dispatch t ev =>
                     match target, t with
                     | Owner, Owner => Some ev
                     | Page a, Page b => if Nat.eqb a b then Some ev else None
                     | _, _ => None
                     end
                 | _ => None
                 end) (trace st).

(** The caller invoking, one after the other and once each, the setter or
    method of every command of [cs]. *)
Definition invokeAll (cs : list command) (st : state) : state :=
  fold_left (fun s c => state_of (replayItem c s)) cs st.

(** Commands [cs] issued on [st0] before the ready signal are queued as
    issued, and the ready callback then returns having invoked their setters
    and methods in that order, once each, before it wires the events. *)
Definition replays_in_order (player : nat) (cs : list command) (st0 : state) : Prop :=
  let queued := invokeAll cs st0 in
  apiStack queued = apiStack st0 ++ cs
  /\ ready player queued = Returned (wire (invokeAll cs (attach player queued))).

(** Before the ready signal: no widget, nothing wired, nothing in flight and
    no call made on the widget. *)
Definition idle (st : state) : Prop :=
  scPlayer st = None /\ wired st = 0%nat /\ callbacks st = [] /\ timers st = []
  /\ remoteCalls st = [].

Definition is_ready (o : op) : bool :=
  match o with Ready _ => true | _ => false end.

(** What every call leaves alone: [muted], [volume] and the iframe, which no
    closure assigns, and, once the widget is there, the widget reference
    being set and the queue. *)
Definition keeps (st st' : state) : Prop :=
  muted st' = muted st
  /\ volume st' = volume st
  /\ scIframe st' = scIframe st
  /\ (is_Some (scPlayer st) -> is_Some (scPlayer st') /\ apiStack st' = apiStack st).

End SoundCloud.

(** ** More string primitives: case folding, substring search, numbers as text *)

Module Text.
Import JS.

(** One code unit of [s.toLowerCase()]: A-Z and the capital letters of
    Latin-1 (U+00C0 to U+00DE without the multiplication sign) move up by 32. *)
Definition lower (a : ascii) : ascii :=
  let n := Z.of_N (N_of_ascii a) in
  if ((65 <=? n) && (n <=? 90)) || ((192 <=? n) && (n <=? 222) && negb (n =? 215))
  then ascii_of_N (Z.to_N (n + 32))
  else a.

Fixpoint toLowerCase (s : string) : string :=
  match s with
  | EmptyString => EmptyString
  | String a rest => String (lower a) (toLowerCase rest)
  end.

(** [s.indexOf(needle)]: the first index at which [needle] starts, or -1. *)
Fixpoint stringIndexOf_from (needle s : string) (i : Z) : Z :=
  if String.prefix needle s then i
  else match s with
       | EmptyString => -1
       | String _ rest => stringIndexOf_from needle rest (i + 1)
       end.

Definition stringIndexOf (needle s : string) : Z := stringIndexOf_from needle s 0.

Definition digit_char (k : Z) : ascii := ascii_of_N (Z.to_N (48 + k)).

(** The decimal digits of [n], most significant first, in front of [acc];
    [fuel] bounds the number of digits. *)
Fixpoint digits (fuel : nat) (n : Z) (acc : string) : string :=
  match fuel with
  | O => acc
  | S f =>
      let acc' := String (digit_char (n mod 10)) acc in
      if n <? 10 then acc' else digits f (n / 10) acc'
  end.

(** The decimal numeral of a natural number. *)
Definition decimal (n : Z) : string := digits (S (Z.to_nat (Z.log2 n))) n EmptyString.

Definition integerToString (n : Z) : string :=
  if n <? 0 then String "-" (decimal (- n)) else decimal n.

(** [String(v)], as string concatenation applies it.  [None] where the text
    is not modelled: a number that is not an integer of magnitude at most
    2^53 (a fraction, a larger double, an infinity), and an array of
    sources. *)
Definition toText (v : value) : option string :=
  match v with
  | VUndefined => Some "undefined"
  | VNull => Some "null"
  | VBool b => Some (if b then "true" else "false")
  | VNaN => Some "NaN"
  | VStr s => Some s
  | VNum q =>
      let r := Qred q in
      if (Z.pos (Qden r) =? 1) && (Z.abs (Qnum r) <=? 2 ^ 53)
      then Some (integerToString (Qnum r))
      else None
  | VSources _ => None
  | VInfinity _ => None
  end.

(** [parseInt(s, 10)]: as [parseInt(s)], without the hexadecimal prefix. *)
Definition parseInt10 (s : string) : value :=
  let s1 := skip_space s in
  let '(sign, s2) :=
    match s1 with
    | String "-" rest => (-1, rest)
    | String "+" rest => (1, rest)
    | _ => (1, s1)
    end in
  match parse_digits 10 s2 None with
  | Some n => toDouble (inject_Z (sign * n))
  | None => VNaN
  end.

(** [a + b] on numbers (ECMAScript 6.1.6.1.7): the double nearest to the sum
    of two finite numbers, an infinity wins over a finite number, two
    opposite infinities and anything with [NaN] give [NaN].  Other operands
    do not reach [+] here and stand for [NaN]. *)
Definition add (a b : value) : value :=
  match a, b with
  | VNum x, VNum y => toDouble (x + y)
  | VInfinity s, VNum _ => VInfinity s
  | VNum _, VInfinity s => VInfinity s
  | VInfinity s, VInfinity t => if Bool.eqb s t then VInfinity s else VNaN
  | _, _ => VNaN
  end.

(** [c] occurs nowhere in [s]. *)
Fixpoint without (c : ascii) (s : string) : bool :=
  match s with
  | EmptyString => true
  | String a rest => negb (Ascii.eqb a c) && without c rest
  end.

(** [s] is empty or starts with something that is not a decimal digit. *)
Definition ends_number (s : string) : bool :=
  match s with
  | EmptyString => true
  | String a _ => match digit_val 10 a with Some _ => false | None => true end
  end.

End Text.

(** ** The URL side of [vimeo.js]: the type check and the iframe address *)

Module VimeoUrl.
Import JS Text.

(** The function pushed on [mejs.Utils.typeChecks]; [url.toLowerCase()]
    throws on anything but a string. *)
Definition typeCheck (url : value) : completion :=
  match url with
  | VStr u =>
      let u' := toLowerCase u in
      if (-1 <? stringIndexOf "player.vimeo" u') || (-1 <? stringIndexOf "vimeo.com" u')
      then Value (VStr "video/x-vimeo")
      else Value VNull
  | _ => Throw TypeError
  end.

(** [standardUrl] of [create]:
    ['https://player.vimeo.com/video/' + vimeoApi.getVimeoId(mediaFiles[0].src)],
    with [src0] for [mediaFiles[0].src]. *)
Definition standardUrl (src0 : string) : option string :=
  match VimeoApi.getVimeoId (VStr src0) with
  | Value videoId =>
      match toText videoId with
      | Some t => Some (String.append "https://player.vimeo.com/video/" t)
      | None => None
      end
  | Throw _ => None
  end.

End VimeoUrl.

(** ** The URL side of [soundcloud.js] *)

Module SoundCloudUrl.
Import JS Text.

(** The function pushed on [mejs.Utils.typeChecks]. *)
Definition typeCheck (url : value) : completion :=
  match url with
  | VStr u =>
      if -1 <? stringIndexOf "soundcloud.com" (toLowerCase u)
      then Value (VStr "video/x-soundcloud")
      else Value VNull
  | _ => Throw TypeError
  end.

End SoundCloudUrl.

(** ** The Zepto patch that follows the SoundCloud renderer *)

Module Zepto.
Import JS Text.

(** [Zepto.fn.outerWidth(includeMargin)]; [width] is the double
    [$(this).width()] returns and the two strings are
    [$(this).css('margin-right')] and [$(this).css('margin-left')]. *)
Definition outerWidth (width : Q) (marginRight marginLeft : string)
    (includeMargin : value) : value :=
  if truthy includeMargin
  then add (add (VNum width) (parseInt10 marginRight)) (parseInt10 marginLeft)
  else VNum width.

End Zepto.

(** * Properties *)

(** ** Proof steps shared by the two renderers *)

(** Case analysis on the [switch] and [if] of a proxy. *)
Ltac cases :=
  repeat match goal with
         | |- context [match ?x with _ => _ end] => destruct x eqn:?; simpl
         end.

(** Equalities between fields nobody touched, then what holds once the
    widget reference is set. *)
Ltac frame_same :=
  repeat (split; [reflexivity|]);
  let Hs := fresh in
  intros Hs; first [ split; [exact Hs | reflexivity]
                   | exfalso; destruct Hs as [? Hs]; simpl in *; congruence ].


(** ** URL parsing and MIME types *)

Section Strings.
Import JS.

Lemma split_aux_nonempty c s cur : split_aux c s cur <> [].
Proof.
  revert cur; induction s as [|a s IH]; intros cur; simpl; [discriminate|].
  destruct (Ascii.eqb a c); [discriminate | apply IH].
Qed.

(** On a string, [getVimeoId] never throws. *)
Lemma getVimeoId_string u : exists v, VimeoApi.getVimeoId (VStr u) = Value v.
Proof.
  unfold VimeoApi.getVimeoId, split.
  destruct (split_aux "?" u EmptyString) eqn:E; [now apply split_aux_nonempty in E | eauto].
Qed.

Lemma strict_eq_str_true v s : strict_eq_str v s = true <-> v = VStr s.
Proof.
  destruct v; simpl; try (split; [discriminate | intros [=]]).
  rewrite String.eqb_eq. split; [now intros -> | now intros [= ->]].
Qed.

Lemma indexOf_from_found arr v i :
  0 <= i -> (-1 <? indexOf_from arr v i) = true <-> exists s, In s arr /\ v = VStr s.
Proof.
  revert i; induction arr as [|s arr IH]; intros i Hi; simpl.
  - split; [discriminate | intros (s & [] & _)].
  - destruct (strict_eq_str v s) eqn:E.
    + apply strict_eq_str_true in E. split; [eauto | intros _; apply Z.ltb_lt; lia].
    + rewrite IH by lia. split.
      * intros (t & Ht & ->); eauto.
      * intros (t & [<- | Ht] & ->); [|eauto].
        simpl in E. now rewrite String.eqb_refl in E.
Qed.

End Strings.

(** C4. [getVimeoId] gives 59777392 for ["https://vimeo.com/59777392?x=1"]
    and for ["https://player.vimeo.com/video/59777392"], and [null] for
    [null] and for [undefined]. *)
Theorem getVimeoId_examples :
  VimeoApi.getVimeoId (JS.VStr "https://vimeo.com/59777392?x=1")
    = Value (JS.VNum (inject_Z 59777392))
  /\ VimeoApi.getVimeoId (JS.VStr "https://player.vimeo.com/video/59777392")
    = Value (JS.VNum (inject_Z 59777392))
  /\ VimeoApi.getVimeoId JS.VNull = Value JS.VNull
  /\ VimeoApi.getVimeoId JS.VUndefined = Value JS.VNull.
Proof. repeat split; vm_compute; reflexivity. Qed.

(** C8. The Vimeo renderer's [canPlayType] is true exactly for
    ["video/vimeo"] and ["video/x-vimeo"], the SoundCloud renderer's exactly
    for ["video/soundcloud"] and ["video/x-soundcloud"]; every other input,
    string or not, gives false. *)
Theorem canPlayType_exact (type : JS.value) :
  (Vimeo.canPlayType type = true <->
     type = JS.VStr "video/vimeo" \/ type = JS.VStr "video/x-vimeo")
  /\ (SoundCloud.canPlayType type = true <->
     type = JS.VStr "video/soundcloud" \/ type = JS.VStr "video/x-soundcloud").
Proof.
  unfold Vimeo.canPlayType, SoundCloud.canPlayType, JS.indexOf.
  split; (rewrite indexOf_from_found; [|lia]); (split;
    [ intros (s & [<- | [<- | []]] & ->); auto
    | intros [-> | ->]; eexists; (split; [|reflexivity]); simpl; auto ]).
Qed.

(** ** The loaders *)

Module VimeoApiFacts.
Import VimeoApi.

(** Nothing the loader runs ever writes [isLoaded] on [vimeoApi], so no
    surface is ever created. *)
Lemma act_keeps_unloaded a w :
  isLoaded (api w) = false -> created w = [] ->
  isLoaded (api (act a w)) = false /\ created (act a w) = [].
Proof.
  intros Hl Hc. destruct a as [s|k|]; unfold act; simpl.
  - unfold enqueueIframe, loadIframeApi. rewrite Hl.
    destruct (this w) as [|o]; simpl; auto.
    destruct (this_started o); simpl; auto.
  - unfold scriptOnload.
    destruct (scripts w !! k) as [[|]|]; simpl; auto.
    destruct (this w) as [|o] eqn:Ht; simpl; auto.
    destruct (readyStateOk o); simpl; auto.
    unfold iFrameReady; simpl; rewrite Ht; simpl; auto.
  - unfold onVimeoPlayerAPIReady, iFrameReady.
    destruct (this w); simpl; auto.
Qed.

Lemma run_keeps_unloaded acts w :
  isLoaded (api w) = false -> created w = [] ->
  isLoaded (api (run acts w)) = false /\ created (run acts w) = [].
Proof.
  revert w; induction acts as [|a acts IH]; intros w Hl Hc; simpl; auto.
  destruct (act_keeps_unloaded a w Hl Hc). now apply IH.
Qed.

(** The script tag is inserted at most once. *)
Lemma act_injected_once a w : injected_once w -> injected_once (act a w).
Proof.
  assert (Hready : forall w', injected_once w' -> injected_once (state_of (iFrameReady w'))).
  { intros w' H. unfold iFrameReady. destruct (this w') as [|o] eqn:Ht; simpl; auto.
    destruct H as [H | (H1 & o' & H2 & H3)]; [now left | right].
    simpl. split; auto. rewrite Ht in H2. injection H2 as <-. eauto. }
  intros H. destruct a as [s|k|]; unfold act.
  - unfold enqueueIframe, createIframe, loadIframeApi.
    destruct (isLoaded (api w)); simpl.
    + destruct H as [H | (H1 & o' & H2 & H3)]; [left | right]; simpl; eauto.
    + destruct (this w) as [|o] eqn:Ht; simpl; auto.
      destruct (this_started o) eqn:Hs; simpl.
      * destruct H as [H | (H1 & o' & H2 & H3)]; [left | right]; simpl; eauto.
      * right; simpl. destruct H as [H | (H1 & o' & H2 & H3)].
        -- rewrite H. simpl. eauto.
        -- rewrite Ht in H2. injection H2 as <-. congruence.
  - unfold scriptOnload.
    destruct (scripts w !! k) as [[|]|]; simpl; auto.
    destruct (this w) as [|o] eqn:Ht; simpl; auto.
    destruct (readyStateOk o); simpl; auto.
    apply Hready. destruct H as [H | (H1 & o' & H2 & H3)]; [left | right]; simpl.
    + now rewrite H.
    + rewrite length_insert. eauto.
  - now apply Hready.
Qed.

(** The two ways the first request goes: in module code [loadIframeApi]
    throws before anything is queued; under a wrapper the script is inserted
    and the request queued, the load callback marks the scope object and
    throws, and a later request is queued behind the first. *)
Example first_request_in_module_code s :
  enqueueIframe s (initial ThisUndefined) = Thrown TypeError (initial ThisUndefined).
Proof. reflexivity. Qed.

Example requests_under_a_wrapper s1 s2 :
  let w := run [Enqueue s1; ScriptEvent 0; Enqueue s2] (initial (ThisObject emptyScope)) in
  returns (scriptOnload 0 (run [Enqueue s1] (initial (ThisObject emptyScope)))) = false
  /\ scripts w = [true] /\ iframeQueue (api w) = [s1; s2] /\ created w = []
  /\ isLoaded (api w) = false /\ isIframeLoaded (api w) = false.
Proof. cbv zeta. repeat split. Qed.

Lemma initial_injected_once t : injected_once (initial t).
Proof. now left. Qed.

Lemma scripts_at_most_one acts t : (length (scripts (run acts (initial t))) <= 1)%nat.
Proof.
  assert (H : forall w, injected_once w -> injected_once (run acts w)).
  { induction acts as [|a acts IH]; intros w Hw; simpl; auto using act_injected_once. }
  destruct (H _ (initial_injected_once t)) as [-> | [-> _]]; simpl; lia.
Qed.

(** Were [isLoaded] set on the loader, [enqueueIframe] would create the
    surface at once and leave the queue and the script tags alone. *)
Lemma enqueue_when_loaded s w :
  isLoaded (api w) = true ->
  enqueueIframe s w =
    Returned {| api := api w; this := this w; scripts := scripts w;
                created := created w ++ [s] |}.
Proof. intros H. unfold enqueueIframe. now rewrite H. Qed.

End VimeoApiFacts.

Module SoundCloudApiFacts.
Import SoundCloudApi.

Lemma sc_act_keeps_unloaded a w :
  isLoaded (api w) = false -> created w = [] ->
  isLoaded (api (act a w)) = false /\ created (act a w) = [].
Proof.
  intros Hl Hc. destruct a as [s|k]; unfold act; simpl.
  - unfold enqueueIframe, loadIframeApi. rewrite Hl.
    destruct (this w) as [|o]; simpl; auto.
    destruct (this_started o); simpl; auto.
  - unfold scriptOnload.
    destruct (scripts w !! k) as [[|]|]; simpl; auto.
    destruct (this w) as [|o] eqn:Ht; simpl; auto.
    destruct (readyStateOk o); simpl; auto.
    unfold apiReady; simpl; rewrite Ht; simpl; auto.
Qed.

Lemma sc_run_keeps_unloaded acts w :
  isLoaded (api w) = false -> created w = [] ->
  isLoaded (api (run acts w)) = false /\ created (run acts w) = [].
Proof.
  revert w; induction acts as [|a acts IH]; intros w Hl Hc; simpl; auto.
  destruct (sc_act_keeps_unloaded a w Hl Hc). now apply IH.
Qed.

Lemma sc_act_injected_once a w : injected_once w -> injected_once (act a w).
Proof.
  intros H. destruct a as [s|k]; unfold act.
  - unfold enqueueIframe, createIframe, loadIframeApi.
    destruct (isLoaded (api w)); simpl.
    + destruct H as [H | (H1 & o' & H2 & H3)]; [left | right]; simpl; eauto.
    + destruct (this w) as [|o] eqn:Ht; simpl; auto.
      destruct (this_started o) eqn:Hs; simpl.
      * destruct H as [H | (H1 & o' & H2 & H3)]; [left | right]; simpl; eauto.
      * right; simpl. destruct H as [H | (H1 & o' & H2 & H3)].
        -- rewrite H. simpl. eauto.
        -- rewrite Ht in H2. injection H2 as <-. congruence.
  - unfold scriptOnload.
    destruct (scripts w !! k) as [[|]|]; simpl; auto.
    destruct (this w) as [|o] eqn:Ht; simpl; auto.
    destruct (readyStateOk o); simpl; auto.
    unfold apiReady; simpl. rewrite Ht; simpl.
    destruct H as [H | (H1 & o' & H2 & H3)]; [left | right]; simpl.
    + now rewrite H.
    + rewrite length_insert. split; [assumption|].
      rewrite Ht in H2. injection H2 as <-. eauto.
Qed.

Lemma sc_scripts_at_most_one acts t : (length (scripts (run acts (initial t))) <= 1)%nat.
Proof.
  assert (H : forall w, injected_once w -> injected_once (run acts w)).
  { induction acts as [|a acts IH]; intros w Hw; simpl; auto using sc_act_injected_once. }
  destruct (H (initial t)) as [-> | [-> _]]; [now left | simpl; lia | lia].
Qed.

End SoundCloudApiFacts.

(** C7. The loaded flag that [enqueueIframe] tests is never set: the load
    callback, an arrow function, writes [isLoaded] on the [this] of the module
    scope and then throws.  Whatever that [this] is, a request enqueued after
    the callback has run creates no surface, in either loader. *)
Theorem enqueue_after_load_callback (t : lexicalThis) :
  (forall s1 s2 : VimeoApi.settings,
     let w := VimeoApi.run
                [VimeoApi.Enqueue s1; VimeoApi.ApiReady; VimeoApi.Enqueue s2]
                (VimeoApi.initial t) in
     VimeoApi.isLoaded (VimeoApi.api w) = false /\ VimeoApi.created w = [])
  /\ (forall s1 s2 : SoundCloudApi.settings,
     let w1 := state_of (SoundCloudApi.enqueueIframe s1 (SoundCloudApi.initial t)) in
     let w2 := state_of (SoundCloudApi.apiReady w1) in
     let w := state_of (SoundCloudApi.enqueueIframe s2 w2) in
     SoundCloudApi.isLoaded (SoundCloudApi.api w) = false /\ SoundCloudApi.created w = []).
Proof.
  split; intros s1 s2.
  - now apply VimeoApiFacts.run_keeps_unloaded.
  - destruct t as [|[[|] il ld rs]]; vm_compute; auto.
Qed.

(** ** The Vimeo renderer *)

Module VimeoFacts.
Import JS Renderer Vimeo.

Lemma keeps_refl st : keeps st st.
Proof. unfold keeps; auto. Qed.

Lemma keeps_trans st1 st2 st3 : keeps st1 st2 -> keeps st2 st3 -> keeps st1 st3.
Proof.
  intros (A1 & G1 & H1) (A2 & G2 & H2).
  split; [congruence|]. split; [congruence|].
  intros Hp. destruct (H1 Hp) as [H1' E1]. destruct (H2 H1') as [H2' E2].
  split; [assumption | congruence].
Qed.

(** A state built from [st] by updates that leave the kept parts alone. *)
Ltac kept := unfold keeps; simpl; frame_same.

Lemma setProp_keeps propName v st : keeps st (state_of (setProp propName v st)).
Proof.
  unfold setProp. destruct (vimeoPlayer st) eqn:Hp; cases; kept.
Qed.

Lemma callMethod_keeps methodName st : keeps st (callMethod methodName st).
Proof.
  unfold callMethod. destruct (vimeoPlayer st) eqn:Hp; cases; kept.
Qed.

Lemma replayItem_keeps c st : keeps st (state_of (replayItem c st)).
Proof. destruct c; simpl; [apply setProp_keeps | apply callMethod_keeps]. Qed.

Lemma replayLoop_keeps n : forall i st, keeps st (state_of (replayLoop n i st)).
Proof.
  induction n as [|n IH]; intros i st; simpl; [apply keeps_refl|].
  destruct (apiStack st !! i) as [c|]; simpl; [|apply keeps_refl].
  pose proof (replayItem_keeps c st) as H.
  destruct (replayItem c st) as [st'|e st']; simpl in *; [|exact H].
  eapply keeps_trans; [exact H | apply IH].
Qed.

Lemma ready_keeps p st :
  autoplay (state_of (ready p st)) = autoplay st
  /\ global_mediaElement (state_of (ready p st)) = global_mediaElement st
  /\ is_Some (vimeoPlayer (state_of (ready p st)))
  /\ apiStack (state_of (ready p st)) = apiStack st.
Proof.
  unfold ready.
  pose proof (replayLoop_keeps (length (apiStack (attach p st))) 0 (attach p st)) as H.
  destruct (replayLoop _ 0 (attach p st)) as [st'|e st']; simpl in *.
  - destruct H as (A & G & H). destruct H as [H1 H2]; [now eexists|].
    destruct H1 as [q Hq]. simpl. rewrite Hq. repeat split; eauto.
  - destruct H as (A & G & H). destruct H as [H1 H2]; [now eexists|]. auto.
Qed.

Lemma set_apiStack_same st : set_apiStack (apiStack st) st = st.
Proof. now destruct st. Qed.

(** Before the ready signal a command is only queued. *)
Lemma replayItem_queues c st :
  vimeoPlayer st = None -> replayItem c st = Returned (push c st).
Proof.
  intros Hp. destruct c; simpl; unfold setProp, callMethod; now rewrite Hp.
Qed.

Lemma invokeAll_queues cs : forall st,
  vimeoPlayer st = None -> invokeAll cs st = set_apiStack (apiStack st ++ cs) st.
Proof.
  induction cs as [|c cs IH]; intros st Hp; simpl.
  - now rewrite app_nil_r, set_apiStack_same.
  - rewrite (replayItem_queues c st Hp); simpl.
    rewrite IH by exact Hp. simpl. now rewrite <- app_assoc.
Qed.

(** With the widget there, a replayable command returns. *)
Lemma replayItem_returns c st :
  is_Some (vimeoPlayer st) -> replayable c = true ->
  exists st', replayItem c st = Returned st'.
Proof.
  intros [p Hp] Hc. destruct c as [propName v|methodName]; simpl; [|eauto].
  unfold setProp. rewrite Hp. simpl in Hc.
  destruct (String.eqb propName "src").
  - destruct (src_of v) as [u|]; [|discriminate].
    destruct (getVimeoId_string u) as [videoId ->]. eauto.
  - cases; eauto.
Qed.

(** The loop over the indices of [apiStack] visits the queued commands in
    the order they were pushed, each once. *)
Lemma replayLoop_fifo cs : forall pre st,
  is_Some (vimeoPlayer st) -> apiStack st = pre ++ cs ->
  Forall (fun c => replayable c = true) cs ->
  replayLoop (length cs) (length pre) st = Returned (invokeAll cs st).
Proof.
  induction cs as [|c cs IH]; intros pre st Hp Hq Hcs; simpl; [reflexivity|].
  rewrite Hq, list_lookup_middle by reflexivity.
  inversion Hcs as [|? ? Hc Hcs']; subst.
  destruct (replayItem_returns c st Hp Hc) as [st' E].
  pose proof (replayItem_keeps c st) as (_ & _ & K). rewrite E in *; simpl in *.
  destruct (K Hp) as [Hp' Hq'].
  replace (S (length pre)) with (length (pre ++ [c])) by (rewrite length_app; simpl; lia).
  apply IH; [assumption | | assumption].
  now rewrite Hq', Hq, <- app_assoc.
Qed.

Lemma replays_replayable p cs st0 :
  vimeoPlayer st0 = None -> apiStack st0 = [] ->
  Forall (fun c => replayable c = true) cs ->
  replays_in_order p cs st0.
Proof.
  intros Hp Hq Hcs. unfold replays_in_order; cbv zeta.
  rewrite (invokeAll_queues cs st0 Hp), Hq.
  change ([] ++ cs) with cs. split; [reflexivity|].
  unfold ready; cbv zeta.
  set (q := attach p (set_apiStack cs st0)).
  assert (E : replayLoop (length (apiStack q)) 0 q = Returned (invokeAll cs q)).
  { apply (replayLoop_fifo cs [] q); [now eexists | reflexivity | assumption]. }
  now rewrite E.
Qed.

(** After the ready signal the queue is what it was, whatever happens next. *)
Lemma step_keeps o st : is_Some (vimeoPlayer st) ->
  is_Some (vimeoPlayer (step o st)) /\ apiStack (step o st) = apiStack st.
Proof.
  intros Hs. pose proof Hs as [p Hp].
  assert (Hst : is_Some (vimeoPlayer st) /\ apiStack st = apiStack st) by auto.
  destruct o as [propName|propName v|m| | |p'|k r|k|s]; simpl.
  - unfold getProp. rewrite Hp. cases; exact Hst.
  - now apply setProp_keeps.
  - now apply callMethod_keeps.
  - unfold hide. destruct (callMethod_keeps "pause" st) as (_ & _ & K).
    destruct (K Hs) as [[q Hq] E]. rewrite Hq; simpl. rewrite Hq. eauto.
  - unfold show. rewrite Hp; simpl. exact Hst.
  - destruct (ready_keeps p' st) as (_ & _ & ? & ?). auto.
  - unfold settle. destruct (pending st !! k) as [pr|]; simpl; [|exact Hst].
    destruct r as [res|e].
    + destruct (onFulfilled pr) as [cb|]; simpl; [|exact Hst].
      destruct cb, res; simpl; try exact Hst; unfold storeDuration; cases; exact Hst.
    + unfold runCatch, errorHandler; simpl.
      destruct (hasCatch pr); [destruct (global_mediaElement st)|]; simpl; exact Hst.
  - unfold timeout. destruct (timers st !! k); simpl; exact Hst.
  - unfold signalled. induction (wired st) as [|n IHn]; simpl; [exact Hst|].
    destruct s; simpl; exact IHn.
Qed.

Lemma run_keeps ops : forall st, is_Some (vimeoPlayer st) ->
  is_Some (vimeoPlayer (run ops st)) /\ apiStack (run ops st) = apiStack st.
Proof.
  induction ops as [|o ops IH]; intros st Hp; simpl; [auto|].
  destruct (step_keeps o st Hp) as [Hp' Hq].
  destruct (IH _ Hp') as [Hp'' Hq']. split; [assumption | congruence].
Qed.

(** Nothing the renderer does binds the page's [mediaElement], or unbinds
    it. *)
Lemma step_global o st : global_mediaElement (step o st) = global_mediaElement st.
Proof.
  destruct o as [propName|propName v|m| | |p'|k r|k|s]; simpl.
  - unfold getProp. cases; reflexivity.
  - apply setProp_keeps.
  - apply callMethod_keeps.
  - unfold hide. destruct (callMethod_keeps "pause" st) as (_ & G & _).
    destruct (vimeoPlayer (callMethod "pause" st)); exact G.
  - unfold show. now destruct (vimeoPlayer st).
  - apply ready_keeps.
  - unfold settle. destruct (pending st !! k) as [pr|]; simpl; [|reflexivity].
    destruct r as [res|e].
    + destruct (onFulfilled pr) as [cb|]; simpl; [|reflexivity].
      destruct cb, res; simpl; try reflexivity; unfold storeDuration; cases; reflexivity.
    + unfold runCatch, errorHandler; simpl.
      destruct (hasCatch pr); [destruct (global_mediaElement st) eqn:G|];
        simpl; (assumption || reflexivity).
  - unfold timeout. now destruct (timers st !! k).
  - unfold signalled. induction (wired st) as [|n IHn]; simpl; [reflexivity|].
    destruct s; simpl; exact IHn.
Qed.

Lemma run_global ops : forall st,
  global_mediaElement (run ops st) = global_mediaElement st.
Proof.
  induction ops as [|o ops IH]; intros st; simpl; [reflexivity|].
  unfold run in IH. now rewrite IH, step_global.
Qed.

(** Before the ready signal nothing reaches the widget. *)
Lemma getProp_null propName st :
  vimeoPlayer st = None -> getProp propName st = (GValue VNull, st).
Proof. intros Hp. unfold getProp. now rewrite Hp. Qed.

Lemma step_idle o st : is_ready o = false -> idle st -> idle (step o st).
Proof.
  intros Ho (Hp & Hw & Hpe & Ht & Hr).
  destruct o as [propName|propName v|m| | |p|k r|k|s]; simpl; try discriminate.
  - rewrite getProp_null by assumption. repeat split; assumption.
  - unfold setProp. rewrite Hp. repeat split; assumption.
  - unfold callMethod. rewrite Hp. repeat split; assumption.
  - unfold hide, callMethod. rewrite Hp; simpl. rewrite Hp. repeat split; assumption.
  - unfold show. rewrite Hp. repeat split; assumption.
  - unfold settle. rewrite Hpe. simpl. repeat split; assumption.
  - unfold timeout. rewrite Ht. simpl. repeat split; assumption.
  - unfold signalled. rewrite Hw. simpl. repeat split; assumption.
Qed.

Lemma run_idle ops : forall st,
  Forall (fun o => is_ready o = false) ops -> idle st -> idle (run ops st).
Proof.
  induction ops as [|o ops IH]; intros st Hops Hst; simpl; [assumption|].
  inversion Hops; subst. apply IH; [assumption | now apply step_idle].
Qed.

Lemma create_idle a g : idle (create a g).
Proof. repeat split. Qed.

(** *** Promises *)

Lemma remove_nth_last {A} (l : list A) (x : A) : remove_nth (length l) (l ++ [x]) = l.
Proof.
  unfold remove_nth. rewrite take_app_length.
  rewrite drop_ge by (rewrite length_app; simpl; lia). apply app_nil_r.
Qed.

(** Settling the promise a request has just added. *)
Lemma settle_request c cb catch st r :
  settle (length (pending st)) r (request c cb catch st) =
    let st' := emit (Remote c) st in
    match r with
    | Fulfilled res =>
        match cb with
        | Some f => runThen f res st'
        | None => Some st'
        end
    | Rejected e =>
        Some (if catch then runCatch e st' else emit (Unhandled (RemoteRejection e)) st')
    end.
Proof.
  unfold settle, request. simpl.
  rewrite list_lookup_middle by reflexivity. simpl.
  rewrite remove_nth_last.
  assert (E : set_pending (pending st)
                (set_pending (pending st ++ [{| call := c; onFulfilled := cb; hasCatch := catch |}])
                   (emit (Remote c) st)) = emit (Remote c) st) by now destruct st.
  now rewrite E.
Qed.

(** The setters chain [catch] on every promise they make; the methods and the
    [src] getter chain none. *)
Lemma setProp_promises propName v st st1 :
  setProp propName v st = Returned st1 ->
  exists new, pending st1 = pending st ++ new /\ Forall (fun p => hasCatch p = true) new.
Proof.
  unfold setProp.
  assert (Hnil : pending st = pending st ++ []) by now rewrite app_nil_r.
  destruct (vimeoPlayer st); cases; intros H; try discriminate; injection H as <-; simpl;
    first [ now exists [] | eexists [_]; split; [reflexivity | now repeat constructor] ].
Qed.

Lemma callMethod_promises methodName st :
  exists new, pending (callMethod methodName st) = pending st ++ new
              /\ Forall (fun p => hasCatch p = false) new.
Proof.
  unfold callMethod.
  assert (Hnil : pending st = pending st ++ []) by now rewrite app_nil_r.
  destruct (vimeoPlayer st); cases;
    first [ now exists [] | eexists [_]; split; [reflexivity | now repeat constructor] ].
Qed.

Lemma getProp_promises propName st :
  exists new, pending (snd (getProp propName st)) = pending st ++ new
              /\ Forall (fun p => hasCatch p = false) new.
Proof.
  unfold getProp.
  assert (Hnil : pending st = pending st ++ []) by now rewrite app_nil_r.
  destruct (vimeoPlayer st); cases;
    first [ now exists [] | eexists [_]; split; [reflexivity | now repeat constructor] ].
Qed.

(** A seek issued before the ready signal: it is queued, replayed by the
    ready callback, stored when the widget confirms it, and [timeupdate]
    follows when the timer expires. *)
Example seek_before_ready :
  let queued := run [Assign "currentTime" (VNum 10)] (create VNull None) in
  let st := run [Ready 0; Settle 0 (Fulfilled NoResult); Timeout 0] queued in
  apiStack queued = [SetCmd "currentTime" (VNum 10)]
  /\ remoteCalls queued = []
  /\ remoteCalls st = setCurrentTime (VNum 10) :: map on playerEvents
  /\ currentTime st = VNum 10
  /\ dispatched Owner st = map plain (initialEvents ++ ["timeupdate"]).
Proof. cbv zeta. repeat split. Qed.

Lemma errorEvent_message e : exists m, message (errorEvent e) = Some m /\ m <> EmptyString.
Proof.
  eexists; split; [reflexivity|].
  destruct (name e) as [|a n]; simpl; discriminate.
Qed.


End VimeoFacts.

(** ** The SoundCloud renderer *)

Module SoundCloudFacts.
Import JS Renderer SoundCloud.

Lemma sc_keeps_refl st : keeps st st.
Proof. unfold keeps; auto. Qed.

Lemma sc_keeps_trans st1 st2 st3 : keeps st1 st2 -> keeps st2 st3 -> keeps st1 st3.
Proof.
  intros (M1 & V1 & I1 & H1) (M2 & V2 & I2 & H2).
  split; [congruence|]. split; [congruence|]. split; [congruence|].
  intros Hp. destruct (H1 Hp) as [H1' E1]. destruct (H2 H1') as [H2' E2].
  split; [assumption | congruence].
Qed.

Ltac kept := unfold keeps; simpl; frame_same.

Lemma sc_setProp_keeps propName v st : keeps st (state_of (setProp propName v st)).
Proof. unfold setProp. destruct (scPlayer st) eqn:Hp; cases; kept. Qed.

Lemma sc_callMethod_keeps methodName st : keeps st (callMethod methodName st).
Proof. unfold callMethod. destruct (scPlayer st) eqn:Hp; cases; kept. Qed.

Lemma sc_replayItem_keeps c st : keeps st (state_of (replayItem c st)).
Proof. destruct c; simpl; [apply sc_setProp_keeps | apply sc_callMethod_keeps]. Qed.

Lemma sc_replayLoop_keeps n : forall i st, keeps st (state_of (replayLoop n i st)).
Proof.
  induction n as [|n IH]; intros i st; simpl; [apply sc_keeps_refl|].
  destruct (apiStack st !! i) as [c|]; simpl; [|apply sc_keeps_refl].
  pose proof (sc_replayItem_keeps c st) as H.
  destruct (replayItem c st) as [st'|e st']; simpl in *; [|exact H].
  eapply sc_keeps_trans; [exact H | apply IH].
Qed.

Lemma sc_ready_keeps p st :
  muted (state_of (ready p st)) = muted st
  /\ volume (state_of (ready p st)) = volume st
  /\ scIframe (state_of (ready p st)) = scIframe st
  /\ is_Some (scPlayer (state_of (ready p st)))
  /\ apiStack (state_of (ready p st)) = apiStack st.
Proof.
  unfold ready.
  pose proof (sc_replayLoop_keeps (length (apiStack (attach p st))) 0 (attach p st)) as H.
  destruct (replayLoop _ 0 (attach p st)) as [st'|e st']; simpl in *;
    destruct H as (M & V & I & H); (destruct H as [H1 H2]; [now eexists|]); auto.
Qed.

Lemma sc_step_keeps o st : keeps st (step o st).
Proof.
  destruct o as [propName|propName v|m| | | | |p|k q|k|s]; simpl.
  - unfold getProp. destruct (scPlayer st); cases; apply sc_keeps_refl.
  - apply sc_setProp_keeps.
  - apply sc_callMethod_keeps.
  - unfold hide. eapply sc_keeps_trans; [apply (sc_callMethod_keeps "pause")|].
    destruct (scIframe _); [kept | apply sc_keeps_refl].
  - unfold show. destruct (scIframe st); [kept | apply sc_keeps_refl].
  - apply sc_keeps_refl.
  - unfold destroyPlayer. destruct (scPlayer st); simpl; [kept | apply sc_keeps_refl].
  - destruct (sc_ready_keeps p st) as (M & V & I & P & Q). unfold keeps. auto.
  - unfold answer. destruct (callbacks st !! k) as [cb|]; simpl; [|apply sc_keeps_refl].
    destruct cb; simpl; cases; kept.
  - unfold timeout. destruct (timers st !! k); simpl; [kept | apply sc_keeps_refl].
  - unfold signalled. induction (wired st) as [|n IHn]; simpl; [apply sc_keeps_refl|].
    eapply sc_keeps_trans; [exact IHn|]. destruct s; kept.
Qed.

Lemma sc_run_keeps ops : forall st, keeps st (run ops st).
Proof.
  induction ops as [|o ops IH]; intros st; simpl; [apply sc_keeps_refl|].
  eapply sc_keeps_trans; [apply sc_step_keeps | apply IH].
Qed.

Lemma sc_set_apiStack_same st : set_apiStack (apiStack st) st = st.
Proof. now destruct st. Qed.

Lemma sc_replayItem_queues c st :
  scPlayer st = None -> replayItem c st = Returned (push c st).
Proof.
  intros Hp. destruct c; simpl; unfold setProp, callMethod; now rewrite Hp.
Qed.

Lemma sc_invokeAll_queues cs : forall st,
  scPlayer st = None -> invokeAll cs st = set_apiStack (apiStack st ++ cs) st.
Proof.
  induction cs as [|c cs IH]; intros st Hp; simpl.
  - now rewrite app_nil_r, sc_set_apiStack_same.
  - rewrite (sc_replayItem_queues c st Hp); simpl.
    rewrite IH by exact Hp. simpl. now rewrite <- app_assoc.
Qed.

Lemma sc_replayItem_returns c st :
  is_Some (scPlayer st) -> replayable c = true ->
  exists st', replayItem c st = Returned st'.
Proof.
  intros [p Hp] Hc. destruct c as [propName v|methodName]; simpl; [|eauto].
  unfold setProp. rewrite Hp. simpl in Hc.
  destruct (String.eqb propName "src").
  - destruct (src_of v) as [u|]; [eauto | discriminate].
  - cases; eauto.
Qed.

Lemma sc_replayLoop_fifo cs : forall pre st,
  is_Some (scPlayer st) -> apiStack st = pre ++ cs ->
  Forall (fun c => replayable c = true) cs ->
  replayLoop (length cs) (length pre) st = Returned (invokeAll cs st).
Proof.
  induction cs as [|c cs IH]; intros pre st Hp Hq Hcs; simpl; [reflexivity|].
  rewrite Hq, list_lookup_middle by reflexivity.
  inversion Hcs as [|? ? Hc Hcs']; subst.
  destruct (sc_replayItem_returns c st Hp Hc) as [st' E].
  pose proof (sc_replayItem_keeps c st) as (_ & _ & _ & K). rewrite E in *; simpl in *.
  destruct (K Hp) as [Hp' Hq'].
  replace (S (length pre)) with (length (pre ++ [c])) by (rewrite length_app; simpl; lia).
  apply IH; [assumption | | assumption].
  now rewrite Hq', Hq, <- app_assoc.
Qed.

Lemma sc_replays_replayable p cs st0 :
  scPlayer st0 = None -> apiStack st0 = [] ->
  Forall (fun c => replayable c = true) cs ->
  replays_in_order p cs st0.
Proof.
  intros Hp Hq Hcs. unfold replays_in_order; cbv zeta.
  rewrite (sc_invokeAll_queues cs st0 Hp), Hq.
  change ([] ++ cs) with cs. split; [reflexivity|].
  unfold ready; cbv zeta.
  set (q := attach p (set_apiStack cs st0)).
  assert (E : replayLoop (length (apiStack q)) 0 q = Returned (invokeAll cs q)).
  { apply (sc_replayLoop_fifo cs [] q); [now eexists | reflexivity | assumption]. }
  now rewrite E.
Qed.

Lemma sc_getProp_null propName st :
  scPlayer st = None -> getProp propName st = (GValue VNull, st).
Proof. intros Hp. unfold getProp. now rewrite Hp. Qed.

Lemma sc_step_idle o st : is_ready o = false -> idle st -> idle (step o st).
Proof.
  intros Ho (Hp & Hw & Hc & Ht & Hr).
  destruct o as [propName|propName v|m| | | | |p|k q|k|s]; simpl; try discriminate.
  - rewrite sc_getProp_null by assumption. repeat split; assumption.
  - unfold setProp. rewrite Hp. repeat split; assumption.
  - unfold callMethod. rewrite Hp. repeat split; assumption.
  - unfold hide, callMethod. rewrite Hp; simpl.
    destruct (scIframe st); repeat split; try assumption.
    unfold remoteCalls in *; simpl. rewrite omap_app, Hr. reflexivity.
  - unfold show. destruct (scIframe st); repeat split; try assumption.
    unfold remoteCalls in *; simpl. rewrite omap_app, Hr. reflexivity.
  - repeat split; assumption.
  - unfold destroyPlayer. rewrite Hp. repeat split; assumption.
  - unfold answer. rewrite Hc. simpl. repeat split; assumption.
  - unfold timeout. rewrite Ht. simpl. repeat split; assumption.
  - unfold signalled. rewrite Hw. simpl. repeat split; assumption.
Qed.

Lemma sc_run_idle ops : forall st,
  Forall (fun o => is_ready o = false) ops -> idle st -> idle (run ops st).
Proof.
  induction ops as [|o ops IH]; intros st Hops Hst; simpl; [assumption|].
  inversion Hops; subst. apply IH; [assumption | now apply sc_step_idle].
Qed.

Lemma sc_create_idle src0 : idle (create src0).
Proof. repeat split. Qed.

End SoundCloudFacts.

(** ** The pending command queue *)

Section Replay.
Import JS Renderer.

(** A queued [src] command with an empty source list makes the setter throw
    ([value[0].src] of an empty array) in the middle of the replay: the ready
    callback is left at once, and the [play] queued behind it never reaches
    the widget. *)
Lemma replay_aborted_by_empty_src :
  let cs := [SetCmd "src" (VSources []); CallCmd "play"] in
  ~ Vimeo.replays_in_order 0 cs (Vimeo.create VNull None)
  /\ Vimeo.remoteCalls
       (state_of (Vimeo.ready 0 (Vimeo.invokeAll cs (Vimeo.create VNull None)))) = []
  /\ ~ SoundCloud.replays_in_order 0 cs (SoundCloud.create "https://soundcloud.com/artist/track")
  /\ SoundCloud.remoteCalls
       (state_of (SoundCloud.ready 0 (SoundCloud.invokeAll cs (SoundCloud.create "https://soundcloud.com/artist/track")))) = [].
Proof.
  cbv zeta. repeat split.
  - intros [_ H]. vm_compute in H. discriminate.
  - intros [_ H]. vm_compute in H. discriminate.
Qed.

(** C1. Commands issued before the ready signal, each [src] value among them
    a string or a non-empty list of sources, are queued in the order issued,
    and the ready callback invokes their setters and methods in that same
    order, once each, in both renderers. *)
Theorem replay_fifo_once (player : nat) (cs : list command)
    (autoplay : value) (g : option element) (src0 : string) :
  Forall (fun c => replayable c = true) cs ->
  Vimeo.replays_in_order player cs (Vimeo.create autoplay g)
  /\ SoundCloud.replays_in_order player cs (SoundCloud.create src0).
Proof.
  intros Hcs. split.
  - now apply VimeoFacts.replays_replayable.
  - now apply SoundCloudFacts.sc_replays_replayable.
Qed.

Lemma replay_fifo_once_witness :
  let cs := [SetCmd "volume" (VNum (1 # 2)); CallCmd "play";
             SetCmd "src" (VStr "https://vimeo.com/123"); SetCmd "currentTime" (VNum 10)] in
  Forall (fun c => replayable c = true) cs
  /\ Vimeo.replays_in_order 7 cs (Vimeo.create VNull None)
  /\ SoundCloud.replays_in_order 7 cs (SoundCloud.create "https://soundcloud.com/a/b").
Proof.
  cbv zeta. split.
  - repeat constructor.
  - apply (replay_fifo_once 7 _ VNull None "https://soundcloud.com/a/b").
    repeat constructor.
Defined.

(** The ready callback leaves the queue as it found it, so a second call of
    it replays the same command again. *)
Lemma queue_survives_replay :
  let st := state_of (Vimeo.ready 0
              (Vimeo.invokeAll [CallCmd "play"] (Vimeo.create VNull None))) in
  Vimeo.apiStack st <> []
  /\ Vimeo.remoteCalls st = Vimeo.play :: map Vimeo.on Vimeo.playerEvents
  /\ Vimeo.remoteCalls (state_of (Vimeo.ready 0 st)) =
       (Vimeo.play :: map Vimeo.on Vimeo.playerEvents)
         ++ (Vimeo.play :: map Vimeo.on Vimeo.playerEvents).
Proof. cbv zeta. repeat split. vm_compute. discriminate. Qed.

(** C5. The replay does not clear the queue: after the ready callback, and
    after anything that happens later, [apiStack] still holds the commands it
    held before; nothing is appended to it once the widget reference is
    set. *)
Theorem queue_kept_after_replay :
  (forall (st : Vimeo.state) (player : nat) (ops : list Vimeo.op),
     Vimeo.apiStack (Vimeo.run ops (state_of (Vimeo.ready player st))) = Vimeo.apiStack st)
  /\ (forall (st : SoundCloud.state) (player : nat) (ops : list SoundCloud.op),
     SoundCloud.apiStack (SoundCloud.run ops (state_of (SoundCloud.ready player st)))
       = SoundCloud.apiStack st).
Proof.
  split; intros st player ops.
  - destruct (VimeoFacts.ready_keeps player st) as (_ & _ & Hp & Hq).
    destruct (VimeoFacts.run_keeps ops _ Hp) as [_ E]. congruence.
  - destruct (SoundCloudFacts.sc_ready_keeps player st) as (_ & _ & _ & Hp & Hq).
    destruct (SoundCloudFacts.sc_run_keeps ops (state_of (SoundCloud.ready player st)))
      as (_ & _ & _ & K).
    destruct (K Hp) as [_ E]. congruence.
Qed.

End Replay.

(** ** Before the ready signal *)

Section BeforeReady.
Import JS Renderer.

(** C9. While the widget reference is null every synthesized getter returns
    [null] and changes nothing; and in any run of getters, setters, methods,
    timers and signals that does not contain the ready signal, the reference
    stays null and no call is made on the widget, in both renderers. *)
Theorem no_widget_access_before_ready :
  (forall propName st,
     Vimeo.vimeoPlayer st = None -> Vimeo.getProp propName st = (GValue VNull, st))
  /\ (forall propName st,
     SoundCloud.scPlayer st = None -> SoundCloud.getProp propName st = (GValue VNull, st))
  /\ (forall ops autoplay g,
     Forall (fun o => Vimeo.is_ready o = false) ops ->
     let st := Vimeo.run ops (Vimeo.create autoplay g) in
     Vimeo.vimeoPlayer st = None /\ Vimeo.remoteCalls st = [])
  /\ (forall ops src0,
     Forall (fun o => SoundCloud.is_ready o = false) ops ->
     let st := SoundCloud.run ops (SoundCloud.create src0) in
     SoundCloud.scPlayer st = None /\ SoundCloud.remoteCalls st = []).
Proof.
  split; [exact VimeoFacts.getProp_null|].
  split; [exact SoundCloudFacts.sc_getProp_null|].
  split.
  - intros ops a g Hops.
    destruct (VimeoFacts.run_idle ops _ Hops (VimeoFacts.create_idle a g))
      as (Hp & _ & _ & _ & Hr). auto.
  - intros ops src0 Hops.
    destruct (SoundCloudFacts.sc_run_idle ops _ Hops (SoundCloudFacts.sc_create_idle src0))
      as (Hp & _ & _ & _ & Hr). auto.
Qed.

Lemma no_widget_access_before_ready_witness :
  let vops := [Vimeo.Assign "volume" (VNum (1 # 2)); Vimeo.Get "src";
               Vimeo.Invoke "play"; Vimeo.Hide; Vimeo.Get "volume"] in
  let sops := [SoundCloud.Assign "muted" (VBool true); SoundCloud.Get "muted";
               SoundCloud.Invoke "pause"; SoundCloud.Destroy] in
  (Vimeo.vimeoPlayer (Vimeo.create VNull None) = None
   /\ Vimeo.getProp "volume" (Vimeo.create VNull None)
        = (GValue VNull, Vimeo.create VNull None))
  /\ (SoundCloud.scPlayer (SoundCloud.create "https://soundcloud.com/artist/track") = None
   /\ SoundCloud.getProp "muted" (SoundCloud.create "https://soundcloud.com/artist/track")
        = (GValue VNull, SoundCloud.create "https://soundcloud.com/artist/track"))
  /\ (Forall (fun o => Vimeo.is_ready o = false) vops
   /\ Vimeo.vimeoPlayer (Vimeo.run vops (Vimeo.create VNull None)) = None
   /\ Vimeo.remoteCalls (Vimeo.run vops (Vimeo.create VNull None)) = [])
  /\ (Forall (fun o => SoundCloud.is_ready o = false) sops
   /\ SoundCloud.scPlayer (SoundCloud.run sops (SoundCloud.create "https://soundcloud.com/artist/track")) = None
   /\ SoundCloud.remoteCalls (SoundCloud.run sops (SoundCloud.create "https://soundcloud.com/artist/track")) = []).
Proof.
  cbv zeta. destruct no_widget_access_before_ready as (G1 & G2 & R1 & R2).
  split; [split; [reflexivity | apply G1; reflexivity]|].
  split; [split; [reflexivity | apply G2; reflexivity]|].
  split.
  - split; [repeat constructor|]. apply (R1 _ VNull None). repeat constructor.
  - split; [repeat constructor|]. apply (R2 _ "https://soundcloud.com/artist/track"). repeat constructor.
Defined.

End BeforeReady.

(** ** Volume and mute *)

Section Volume.
Import JS Renderer.

(** C2. The SoundCloud renderer does not restore the volume: on a ready
    renderer, setting the volume to [v], muting and unmuting ends with
    [scPlayer.setVolume(1)], whatever [v] was, and the cached volume is the 1
    of [create] throughout.  At [v] = 0.5 the widget ends at 1, not 0.5. *)
Theorem soundcloud_unmute_sets_one (src0 : string) (player : nat) (v : value) :
  let st := SoundCloud.run
              [SoundCloud.Ready player; SoundCloud.Assign "volume" v;
               SoundCloud.Assign "muted" (VBool true);
               SoundCloud.Assign "muted" (VBool false)]
              (SoundCloud.create src0) in
  SoundCloud.remoteCalls st =
    map SoundCloud.bindEvent SoundCloud.widgetEvents
      ++ [SoundCloud.setVolume v; SoundCloud.setVolume (VNum 0);
          SoundCloud.setVolume (VNum 1)]
  /\ SoundCloud.volume st = VNum 1
  /\ VNum 1 <> VNum (1 # 2).
Proof. cbv zeta. repeat split. discriminate. Qed.

(** On a ready SoundCloud renderer with nothing in flight, the volume setter
    and the timer it starts leave the cached volume at 1: the new value is
    never stored, and [volumechange] is dispatched all the same. *)
Lemma soundcloud_volume_not_cached :
  let st := SoundCloud.run
              [SoundCloud.Ready 0; SoundCloud.Assign "volume" (VNum (1 # 2));
               SoundCloud.Timeout 0]
              (SoundCloud.create "https://soundcloud.com/artist/track") in
  SoundCloud.callbacks st = [] /\ SoundCloud.timers st = []
  /\ SoundCloud.volume st <> VNum (1 # 2)
  /\ fst (SoundCloud.getProp "volume" st) = GValue (VNum 1)
  /\ last (SoundCloud.dispatched Owner st) = Some (plain "volumechange").
Proof. cbv zeta. repeat split. vm_compute. discriminate. Qed.

(** C6. On a ready Vimeo renderer the volume setter calls
    [vimeoPlayer.setVolume(value)] and stores nothing yet; when the promise is
    fulfilled, [volume] and [oldVolume] become the new value and a 50 ms timer
    is started whose expiry dispatches [volumechange] on the owner; when it is
    rejected the cache and the timers stay as they were and [errorHandler]
    builds the [error] event, dispatched on the element its [mediaElement]
    identifier denotes.  On a ready SoundCloud renderer the setter calls
    [scPlayer.setVolume(value)], which takes no completion or failure
    callback, and starts the 50 ms [volumechange] timer at once. *)
Theorem volume_setter_when_ready
    (vst : Vimeo.state) (sst : SoundCloud.state) (p q : nat) (v : value)
    (Hv : Vimeo.vimeoPlayer vst = Some p) (Hs : SoundCloud.scPlayer sst = Some q) :
  (let st1 := Vimeo.request (Vimeo.setVolume v) (Some (Vimeo.ThenVolume v)) true vst in
   let k := length (Vimeo.pending vst) in
   let tick := {| delay := 50; fires := "volumechange" |} in
   Vimeo.setProp "volume" v vst = Returned st1
   /\ Vimeo.trace st1 = Vimeo.trace vst ++ [Vimeo.Remote (Vimeo.setVolume v)]
   /\ Vimeo.volume st1 = Vimeo.volume vst
   /\ Vimeo.timers st1 = Vimeo.timers vst
   /\ (forall res, exists st2 st3,
         Vimeo.settle k (Vimeo.Fulfilled res) st1 = Some st2
         /\ Vimeo.volume st2 = v /\ Vimeo.oldVolume st2 = v
         /\ Vimeo.timers st2 = Vimeo.timers vst ++ [tick]
         /\ Vimeo.trace st2 = Vimeo.trace st1
         /\ Vimeo.timeout (length (Vimeo.timers vst)) st2 = Some st3
         /\ Vimeo.trace st3 =
              Vimeo.trace st1 ++ [Vimeo.Dispatch Owner (plain "volumechange")])
   /\ (forall e, exists st2,
         Vimeo.settle k (Vimeo.Rejected e) st1 = Some st2
         /\ Vimeo.volume st2 = Vimeo.volume vst
         /\ Vimeo.oldVolume st2 = Vimeo.oldVolume vst
         /\ Vimeo.timers st2 = Vimeo.timers vst
         /\ (forall t, Vimeo.global_mediaElement vst = Some t ->
               Vimeo.trace st2 = Vimeo.trace st1 ++ [Vimeo.Dispatch t (Vimeo.errorEvent e)])))
  /\ (let st1 := SoundCloud.setTimeout "volumechange" 50
                   (SoundCloud.remote (SoundCloud.setVolume v) sst) in
      SoundCloud.setProp "volume" v sst = Returned st1
      /\ SoundCloud.trace st1 = SoundCloud.trace sst ++ [SoundCloud.Remote (SoundCloud.setVolume v)]
      /\ SoundCloud.timers st1 =
           SoundCloud.timers sst ++ [{| delay := 50; fires := "volumechange" |}]
      /\ SoundCloud.callbacks st1 = SoundCloud.callbacks sst).
Proof.
  split; cbv zeta.
  - split; [unfold Vimeo.setProp; now rewrite Hv|].
    repeat (split; [reflexivity|]). split.
    + intros res. rewrite VimeoFacts.settle_request. simpl.
      eexists _, _. repeat (split; [reflexivity|]).
      unfold Vimeo.timeout; simpl.
      rewrite list_lookup_middle by reflexivity. simpl. split; reflexivity.
    + intros e. rewrite VimeoFacts.settle_request. cbv zeta.
      eexists. split; [reflexivity|].
      unfold Vimeo.runCatch, Vimeo.errorHandler; simpl.
      destruct (Vimeo.global_mediaElement vst) as [t|]; simpl;
        repeat (split; [reflexivity|]).
      * now intros t' [= <-].
      * discriminate.
  - split; [unfold SoundCloud.setProp; now rewrite Hs|].
    repeat split.
Qed.

Lemma volume_setter_when_ready_witness :
  let vst := state_of (Vimeo.ready 3 (Vimeo.create VNull (Some Owner))) in
  let sst := state_of (SoundCloud.ready 4 (SoundCloud.create "https://soundcloud.com/artist/track")) in
  Vimeo.vimeoPlayer vst = Some 3%nat /\ SoundCloud.scPlayer sst = Some 4%nat
  /\ Vimeo.setProp "volume" (VNum (1 # 2)) vst =
       Returned (Vimeo.request (Vimeo.setVolume (VNum (1 # 2)))
                   (Some (Vimeo.ThenVolume (VNum (1 # 2)))) true vst)
  /\ SoundCloud.setProp "volume" (VNum (1 # 2)) sst =
       Returned (SoundCloud.setTimeout "volumechange" 50
                   (SoundCloud.remote (SoundCloud.setVolume (VNum (1 # 2))) sst)).
Proof.
  cbv zeta. split; [reflexivity|]. split; [reflexivity|].
  destruct (volume_setter_when_ready
              (state_of (Vimeo.ready 3 (Vimeo.create VNull (Some Owner))))
              (state_of (SoundCloud.ready 4 (SoundCloud.create "https://soundcloud.com/artist/track")))
              3 4 (VNum (1 # 2)) eq_refl eq_refl) as [(V & _) (S & _)].
  split; [exact V | exact S].
Defined.

(** C10. Nothing that can happen to a SoundCloud renderer changes [muted]:
    it is [false] after every run from [create], and from the ready signal
    on the [muted] getter returns [false] whatever came before and after,
    [setMuted(true)] included. *)
Theorem soundcloud_muted_stays_false (src0 : string) (ops : list SoundCloud.op) :
  (forall o st, SoundCloud.muted (SoundCloud.step o st) = SoundCloud.muted st)
  /\ SoundCloud.muted (SoundCloud.run ops (SoundCloud.create src0)) = false
  /\ (forall player ops',
        fst (SoundCloud.getProp "muted"
               (SoundCloud.run (ops ++ SoundCloud.Ready player :: ops')
                  (SoundCloud.create src0)))
        = GValue (VBool false)).
Proof.
  assert (Hm : forall l st, SoundCloud.muted (SoundCloud.run l st) = SoundCloud.muted st).
  { intros l st. now destruct (SoundCloudFacts.sc_run_keeps l st) as (-> & _). }
  split; [intros o st; now destruct (SoundCloudFacts.sc_step_keeps o st) as (-> & _)|].
  split; [now rewrite Hm|].
  intros player ops'.
  set (st := SoundCloud.run (ops ++ SoundCloud.Ready player :: ops') (SoundCloud.create src0)).
  assert (Hp : is_Some (SoundCloud.scPlayer st)).
  { unfold st, SoundCloud.run. rewrite fold_left_app. simpl.
    fold (SoundCloud.run ops (SoundCloud.create src0)).
    set (st1 := SoundCloud.run ops (SoundCloud.create src0)).
    destruct (SoundCloudFacts.sc_ready_keeps player st1) as (_ & _ & _ & Hr & _).
    fold (SoundCloud.run ops' (state_of (SoundCloud.ready player st1))).
    now destruct (SoundCloudFacts.sc_run_keeps ops' (state_of (SoundCloud.ready player st1)))
      as (_ & _ & _ & K); apply K. }
  destruct Hp as [pl Hp]. unfold SoundCloud.getProp. rewrite Hp. simpl.
  unfold st. now rewrite Hm.
Qed.

(** A run with [setMuted(true)] after the ready signal: the widget is told
    volume 0, and the getter still answers [false]. *)
Example soundcloud_muted_after_mute :
  let st := SoundCloud.run [SoundCloud.Ready 0; SoundCloud.Assign "muted" (VBool true);
                            SoundCloud.Timeout 0] (SoundCloud.create "https://soundcloud.com/artist/track") in
  last (SoundCloud.remoteCalls st) = Some (SoundCloud.setVolume (VNum 0))
  /\ fst (SoundCloud.getProp "muted" st) = GValue (VBool false).
Proof. cbv zeta. split; reflexivity. Qed.

End Volume.

(** ** Failed remote calls *)

Section Failures.
Import JS Renderer.

(** The promise returned by the [play] method has nothing chained on it: when
    the widget rejects it, no event is dispatched on the owner, even where
    [errorHandler] would find the owner under its [mediaElement]. *)
Lemma play_rejection_not_reported :
  let st := Vimeo.run [Vimeo.Ready 0; Vimeo.Invoke "play"]
              (Vimeo.create VNull (Some Owner)) in
  let e := {| name := "NotAllowedError"; description := "play() was prevented" |} in
  let st' := Vimeo.emit (Vimeo.Unhandled (Vimeo.RemoteRejection e))
               (Vimeo.set_pending [] st) in
  Vimeo.pending st = [{| Vimeo.call := Vimeo.play; Vimeo.onFulfilled := None;
                         Vimeo.hasCatch := false |}]
  /\ Vimeo.settle 0 (Vimeo.Rejected e) st = Some st'
  /\ Vimeo.dispatched Owner st' = Vimeo.dispatched Owner st
  /\ ~ Vimeo.error_reported e st st'.
Proof.
  cbv zeta. split; [vm_compute; reflexivity|]. split; [vm_compute; reflexivity|].
  split; [vm_compute; reflexivity|]. intros H. vm_compute in H. discriminate.
Qed.

(** What a rejection does, by what is chained on the promise and by what
    the page binds.  Rejecting a promise in flight removes it from the
    promises in flight.  If [catch] is chained on it, as it is on every
    promise a Vimeo setter makes itself, [errorHandler] runs once and builds
    one [error] event whose message is the error's name, [": "] and its
    description, hence not empty; where the page binds [mediaElement], the
    event is dispatched on what it denotes.  If nothing is chained, as on the
    promises of the methods ([play], [pause]) and of the [src] getter, the
    rejection is unhandled and nothing is dispatched. *)
Lemma rejection_handling
    (st : Vimeo.state) (k : nat) (p : Vimeo.promise) (e : remoteError)
    (Hk : Vimeo.pending st !! k = Some p) :
  (exists st',
     Vimeo.settle k (Vimeo.Rejected e) st = Some st'
     /\ Vimeo.pending st' = remove_nth k (Vimeo.pending st)
     /\ (Vimeo.hasCatch p = true ->
         forall t, Vimeo.global_mediaElement st = Some t ->
           Vimeo.trace st' = Vimeo.trace st ++ [Vimeo.Dispatch t (Vimeo.errorEvent e)])
     /\ (Vimeo.hasCatch p = false ->
         Vimeo.trace st' = Vimeo.trace st ++ [Vimeo.Unhandled (Vimeo.RemoteRejection e)]))
  /\ (exists m, message (Vimeo.errorEvent e) = Some m /\ m <> EmptyString
                /\ m = String.append (name e) (String.append ": " (description e)))
  /\ (forall propName v s s1,
        Vimeo.setProp propName v s = Returned s1 ->
        exists new, Vimeo.pending s1 = Vimeo.pending s ++ new
                    /\ Forall (fun x => Vimeo.hasCatch x = true) new)
  /\ (forall methodName s,
        exists new, Vimeo.pending (Vimeo.callMethod methodName s) = Vimeo.pending s ++ new
                    /\ Forall (fun x => Vimeo.hasCatch x = false) new)
  /\ (forall propName s,
        exists new, Vimeo.pending (snd (Vimeo.getProp propName s)) = Vimeo.pending s ++ new
                    /\ Forall (fun x => Vimeo.hasCatch x = false) new).
Proof.
  split.
  - unfold Vimeo.settle. rewrite Hk. eexists. split; [reflexivity|].
    unfold Vimeo.runCatch, Vimeo.errorHandler. simpl.
    destruct (Vimeo.hasCatch p); simpl.
    + destruct (Vimeo.global_mediaElement st) as [t|]; simpl;
        (split; [reflexivity|]); (split; [|discriminate]); intros _ t' [=]; now subst.
    + split; [reflexivity|]. split; [discriminate | reflexivity].
  - split.
    { destruct (VimeoFacts.errorEvent_message e) as (m & Hm & Hne).
      exists m. repeat split; try assumption. simpl in Hm. now injection Hm as <-. }
    split; [exact VimeoFacts.setProp_promises|].
    split; [exact VimeoFacts.callMethod_promises | exact VimeoFacts.getProp_promises].
Qed.

Lemma rejection_handling_witness :
  let st := Vimeo.run [Vimeo.Ready 0; Vimeo.Assign "currentTime" (VNum 10)]
              (Vimeo.create VNull (Some Owner)) in
  let p := {| Vimeo.call := Vimeo.setCurrentTime (VNum 10);
              Vimeo.onFulfilled := Some (Vimeo.ThenCurrentTime (VNum 10));
              Vimeo.hasCatch := true |} in
  let e := {| name := "RangeError"; description := "out of range" |} in
  Vimeo.pending st !! 0%nat = Some p
  /\ exists st',
       Vimeo.settle 0 (Vimeo.Rejected e) st = Some st'
       /\ Vimeo.dispatched Owner st' =
            Vimeo.dispatched Owner st
              ++ [{| etype := "error"; message := Some "RangeError: out of range" |}].
Proof.
  cbv zeta. split; [reflexivity|].
  destruct (rejection_handling
              (Vimeo.run [Vimeo.Ready 0; Vimeo.Assign "currentTime" (VNum 10)]
                 (Vimeo.create VNull (Some Owner)))
              0 _ {| name := "RangeError"; description := "out of range" |} eq_refl)
    as [(st' & Hs & _ & Hc & _) _].
  exists st'. split; [exact Hs|].
  unfold Vimeo.dispatched. rewrite (Hc eq_refl Owner eq_refl).
  rewrite omap_app. reflexivity.
Defined.

(** C3. A rejected call is not reported.  [errorHandler] ends with
    [mediaElement.dispatchEvent(event)], and [mediaElement] is bound neither
    in the handler nor in the module.  So, on a page that binds no global of
    that name, whatever has happened to the renderer before: when the widget
    rejects a promise in flight, the promise leaves the promises in flight,
    and the only thing that follows is an unhandled rejection, of the
    [ReferenceError] the [catch] callback runs into where [catch] is chained,
    of the remote error itself where it is not; no event is dispatched, on
    the owner or anywhere else, and no [error] event reports the failure. *)
Theorem rejected_call_reports_nothing
    (autoplay : value) (ops : list Vimeo.op) (k : nat) (p : Vimeo.promise)
    (e : remoteError) :
  Vimeo.pending (Vimeo.run ops (Vimeo.create autoplay None)) !! k = Some p ->
  exists st',
    Vimeo.settle k (Vimeo.Rejected e) (Vimeo.run ops (Vimeo.create autoplay None))
      = Some st'
    /\ Vimeo.pending st'
       = remove_nth k (Vimeo.pending (Vimeo.run ops (Vimeo.create autoplay None)))
    /\ Vimeo.trace st'
       = Vimeo.trace (Vimeo.run ops (Vimeo.create autoplay None))
           ++ [Vimeo.Unhandled (if Vimeo.hasCatch p
                                then Vimeo.ScriptError ReferenceError
                                else Vimeo.RemoteRejection e)]
    /\ (forall t, Vimeo.dispatched t st'
                  = Vimeo.dispatched t (Vimeo.run ops (Vimeo.create autoplay None)))
    /\ ~ Vimeo.error_reported e (Vimeo.run ops (Vimeo.create autoplay None)) st'.
Proof.
  pose proof (VimeoFacts.run_global ops (Vimeo.create autoplay None)) as Hg.
  simpl in Hg.
  generalize dependent (Vimeo.run ops (Vimeo.create autoplay None)).
  intros st Hg Hk.
  assert (Htrace : forall st',
            Vimeo.trace st' = Vimeo.trace st
              ++ [Vimeo.Unhandled (if Vimeo.hasCatch p
                                   then Vimeo.ScriptError ReferenceError
                                   else Vimeo.RemoteRejection e)] ->
            forall t, Vimeo.dispatched t st' = Vimeo.dispatched t st).
  { intros st' E t. unfold Vimeo.dispatched. rewrite E, omap_app. simpl.
    apply app_nil_r. }
  unfold Vimeo.settle. rewrite Hk. eexists. split; [reflexivity|].
  unfold Vimeo.runCatch, Vimeo.errorHandler. simpl. rewrite Hg.
  assert (E : Vimeo.trace
                (if Vimeo.hasCatch p
                 then Vimeo.emit (Vimeo.Unhandled (Vimeo.ScriptError ReferenceError))
                        (Vimeo.set_pending (remove_nth k (Vimeo.pending st)) st)
                 else Vimeo.emit (Vimeo.Unhandled (Vimeo.RemoteRejection e))
                        (Vimeo.set_pending (remove_nth k (Vimeo.pending st)) st))
              = Vimeo.trace st
                  ++ [Vimeo.Unhandled (if Vimeo.hasCatch p
                                       then Vimeo.ScriptError ReferenceError
                                       else Vimeo.RemoteRejection e)])
    by now destruct (Vimeo.hasCatch p).
  split; [now destruct (Vimeo.hasCatch p)|].
  split; [exact E|].
  split; [exact (Htrace _ E)|].
  unfold Vimeo.error_reported. rewrite (Htrace _ E Owner).
  intros H. apply (f_equal length) in H. rewrite length_app in H. simpl in H. lia.
Qed.

Lemma rejected_call_reports_nothing_witness :
  let st := Vimeo.run [Vimeo.Ready 0; Vimeo.Assign "currentTime" (VNum 10)]
              (Vimeo.create VNull None) in
  let p := {| Vimeo.call := Vimeo.setCurrentTime (VNum 10);
              Vimeo.onFulfilled := Some (Vimeo.ThenCurrentTime (VNum 10));
              Vimeo.hasCatch := true |} in
  let e := {| name := "RangeError"; description := "out of range" |} in
  Vimeo.pending st !! 0%nat = Some p
  /\ exists st',
       Vimeo.settle 0 (Vimeo.Rejected e) st = Some st'
       /\ Vimeo.trace st'
          = Vimeo.trace st ++ [Vimeo.Unhandled (Vimeo.ScriptError ReferenceError)]
       /\ Vimeo.dispatched Owner st' = map plain Vimeo.initialEvents.
Proof.
  cbv zeta. split; [reflexivity|].
  destruct (rejected_call_reports_nothing VNull
              [Vimeo.Ready 0; Vimeo.Assign "currentTime" (VNum 10)] 0 _
              {| name := "RangeError"; description := "out of range" |} eq_refl)
    as (st' & Hs & _ & Ht & Hd & _).
  exists st'. split; [exact Hs|]. split; [exact Ht|].
  rewrite (Hd Owner). reflexivity.
Defined.

End Failures.

(** ** Text: splitting, searching, printing and parsing *)

Module TextFacts.
Import JS Text.

Lemma append_assoc (a b c : string) :
  String.append (String.append a b) c = String.append a (String.append b c).
Proof. induction a as [|x a IH]; simpl; [reflexivity | now rewrite IH]. Qed.

Lemma append_empty_r (a : string) : String.append a EmptyString = a.
Proof. induction a as [|x a IH]; simpl; [reflexivity | now rewrite IH]. Qed.

Lemma without_app c a b :
  without c (String.append a b) = without c a && without c b.
Proof.
  induction a as [|x a IH]; simpl; [reflexivity|].
  rewrite IH. now rewrite andb_assoc.
Qed.

(** [split] cuts at the first separator. *)
Lemma split_aux_cut c u q cur :
  without c u = true ->
  split_aux c (String.append u (String c q)) cur
    = String.append cur u :: split_aux c q EmptyString.
Proof.
  revert cur; induction u as [|a u IH]; intros cur Hu; simpl in *.
  - now rewrite Ascii.eqb_refl, append_empty_r.
  - apply andb_true_iff in Hu as [Ha Hu]. apply negb_true_iff in Ha.
    rewrite Ha, IH by assumption. now rewrite append_assoc.
Qed.

Lemma split_aux_whole c u cur :
  without c u = true -> split_aux c u cur = [String.append cur u].
Proof.
  revert cur; induction u as [|a u IH]; intros cur Hu; simpl in *.
  - now rewrite append_empty_r.
  - apply andb_true_iff in Hu as [Ha Hu]. apply negb_true_iff in Ha.
    rewrite Ha, IH by assumption. now rewrite append_assoc.
Qed.

Lemma lastIndexOf_from_absent c t i found :
  without c t = true -> lastIndexOf_from c t i found = found.
Proof.
  revert i; induction t as [|a t IH]; intros i Ht; simpl in *; [reflexivity|].
  apply andb_true_iff in Ht as [Ha Ht]. apply negb_true_iff in Ha.
  now rewrite Ha, IH.
Qed.

Lemma lastIndexOf_from_last c a t : forall i found,
  without c t = true ->
  lastIndexOf_from c (String.append a (String c t)) i found
    = i + Z.of_nat (String.length a).
Proof.
  induction a as [|x a IH]; intros i found Ht.
  - simpl. rewrite Ascii.eqb_refl, lastIndexOf_from_absent by assumption. lia.
  - cbn [String.append lastIndexOf_from String.length]. rewrite IH by assumption. lia.
Qed.

Lemma drop_chars_past a c t :
  drop_chars (S (String.length a)) (String.append a (String c t)) = t.
Proof. induction a as [|x a IH]; simpl; [reflexivity | exact IH]. Qed.

(** What follows the last [c] of a string. *)
Lemma substring_after_last c a t :
  without c t = true ->
  substring (lastIndexOf c (String.append a (String c t)) + 1)
    (String.append a (String c t)) = t.
Proof.
  intros Ht. unfold substring, lastIndexOf.
  rewrite lastIndexOf_from_last by assumption.
  replace (Z.to_nat (Z.max 0 (0 + Z.of_nat (String.length a) + 1)))
    with (S (String.length a)) by lia.
  apply drop_chars_past.
Qed.

(** [getVimeoId] is [parseInt] of what follows the last slash, when no
    question mark is around. *)
Lemma getVimeoId_after_slash base t :
  without "?" base = true -> without "?" t = true -> without "/" t = true ->
  VimeoApi.getVimeoId (VStr (String.append base (String "/" t))) = Value (parseInt t).
Proof.
  intros Hb Ht Hs. unfold VimeoApi.getVimeoId, split.
  rewrite split_aux_whole
    by (rewrite without_app; simpl; now rewrite Hb, Ht).
  simpl String.append. now rewrite substring_after_last.
Qed.

Lemma digit_val_digit_char k :
  0 <= k < 10 -> digit_val 10 (digit_char k) = Some k.
Proof.
  intros Hk.
  assert (H : k = 0 \/ k = 1 \/ k = 2 \/ k = 3 \/ k = 4 \/ k = 5 \/ k = 6 \/ k = 7
              \/ k = 8 \/ k = 9) by lia.
  repeat (destruct H as [-> | H]; [reflexivity|]). now subst.
Qed.

Lemma digits_step f n acc :
  digits (S f) n acc =
    if n <? 10 then String (digit_char (n mod 10)) acc
    else digits f (n / 10) (String (digit_char (n mod 10)) acc).
Proof. reflexivity. Qed.

Lemma digits_acc f : forall n acc,
  digits f n acc = String.append (digits f n EmptyString) acc.
Proof.
  induction f as [|f IH]; intros n acc; [reflexivity|].
  rewrite !digits_step.
  destruct (n <? 10); [reflexivity|].
  rewrite IH, (IH _ (String _ EmptyString)). now rewrite append_assoc.
Qed.

(** Reading back the digits written for [n] gives [n]. *)
Lemma parse_digits_digits f : forall n acc,
  0 <= n < 2 ^ Z.of_nat (S f) ->
  parse_digits 10 (digits (S f) n acc) None = parse_digits 10 acc (Some n).
Proof.
  induction f as [|f IH]; intros n acc Hn; rewrite digits_step.
  - assert (Hlt : (n <? 10) = true) by (apply Z.ltb_lt; simpl in Hn; lia).
    rewrite Hlt. cbn [parse_digits].
    rewrite Z.mod_small by (simpl in Hn; lia).
    now rewrite digit_val_digit_char by (simpl in Hn; lia).
  - destruct (n <? 10) eqn:Hlt.
    + apply Z.ltb_lt in Hlt. cbn [parse_digits].
      rewrite Z.mod_small by lia. now rewrite digit_val_digit_char by lia.
    + apply Z.ltb_ge in Hlt.
      rewrite IH.
      * cbn [parse_digits].
        rewrite digit_val_digit_char by (apply Z.mod_pos_bound; lia).
        f_equal. f_equal. pose proof (Z.div_mod n 10). lia.
      * split; [apply Z.div_pos; lia|].
        rewrite Nat2Z.inj_succ, Z.pow_succ_r in Hn by lia.
        apply Z.div_lt_upper_bound; lia.
Qed.

Lemma decimal_fuel n : 0 <= n -> 0 <= n < 2 ^ Z.of_nat (S (Z.to_nat (Z.log2 n))).
Proof.
  intros Hn. split; [assumption|].
  rewrite Nat2Z.inj_succ, Z2Nat.id by apply Z.log2_nonneg.
  destruct (Z.eq_dec n 0) as [-> | Hz]; [reflexivity|].
  apply Z.log2_spec. lia.
Qed.

Lemma parse_digits_decimal n tail :
  0 <= n -> ends_number tail = true ->
  parse_digits 10 (String.append (decimal n) tail) None = Some n.
Proof.
  intros Hn Ht. unfold decimal. rewrite <- digits_acc.
  rewrite parse_digits_digits by now apply decimal_fuel.
  destruct tail as [|a tail]; [reflexivity|]. simpl in *.
  now destruct (digit_val 10 a).
Qed.

(** The numeral of a positive number starts with a digit from 1 to 9. *)
Lemma digits_head f : forall n acc,
  0 < n < 2 ^ Z.of_nat (S f) ->
  exists k rest, 1 <= k <= 9 /\ digits (S f) n acc = String (digit_char k) rest.
Proof.
  induction f as [|f IH]; intros n acc Hn; rewrite digits_step.
  - exists n, acc. simpl in Hn.
    replace (n <? 10) with true by (symmetry; apply Z.ltb_lt; lia).
    rewrite Z.mod_small by lia. split; [lia | reflexivity].
  - destruct (n <? 10) eqn:Hlt.
    + apply Z.ltb_lt in Hlt. exists n, acc.
      rewrite Z.mod_small by lia. split; [lia | reflexivity].
    + apply Z.ltb_ge in Hlt. apply IH. split.
      * apply Z.div_str_pos; lia.
      * rewrite Nat2Z.inj_succ, Z.pow_succ_r in Hn by lia.
        apply Z.div_lt_upper_bound; lia.
Qed.

Lemma decimal_head n :
  0 < n -> exists k rest, 1 <= k <= 9 /\ decimal n = String (digit_char k) rest.
Proof.
  intros Hn. unfold decimal. apply digits_head.
  destruct (decimal_fuel n) as [_ H]; [lia|]. split; [lia | exact H].
Qed.

(** *** Doubles *)

Lemma Qred_inject_Z z : Qred (inject_Z z) = inject_Z z.
Proof.
  unfold Qred, inject_Z.
  pose proof (Z.ggcd_gcd z 1) as Hg. pose proof (Z.ggcd_correct_divisors z 1) as Hd.
  destruct (Z.ggcd z 1) as [g [aa bb]]. simpl in *.
  rewrite Z.gcd_1_r in Hg. subst g. destruct Hd as [Ha Hb].
  replace aa with z by lia. replace bb with 1 by lia. reflexivity.
Qed.

Lemma Qred_integer q z : q == inject_Z z -> Qred q = inject_Z z.
Proof. intros H. rewrite (Qred_complete _ _ H). apply Qred_inject_Z. Qed.

(** A quotient that comes out even needs no rounding. *)
Lemma roundHalfEven_exact m d : 0 < d -> roundHalfEven (m * d) d = m.
Proof.
  intros Hd. unfold roundHalfEven.
  rewrite Z.mod_mul, Z.div_mul by lia.
  now replace (2 * 0 <? d) with true by (symmetry; apply Z.ltb_lt; lia).
Qed.

(** An integer of magnitude at most 2^53 is a double. *)
Lemma toDouble_integer q z :
  q == inject_Z z -> Z.abs z <= 2 ^ 53 -> toDouble q = VNum (inject_Z z).
Proof.
  intros Hq Hz. unfold toDouble. rewrite (Qred_integer _ _ Hq).
  cbn [Qnum Qden inject_Z].
  destruct (Z.abs z =? 0) eqn:Hzero.
  { apply Z.eqb_eq in Hzero. now replace z with 0 by lia. }
  apply Z.eqb_neq in Hzero.
  change (Z.log2 1) with 0. rewrite Z.sub_0_r.
  remember (Z.abs z) as n eqn:Hndef. set (a := Z.log2 n).
  assert (Hn : 0 < n) by lia.
  pose proof (Z.log2_spec n Hn) as [Hlo Hhi]. fold a in Hlo, Hhi.
  assert (Ha0 : 0 <= a) by apply Z.log2_nonneg.
  assert (Ha : a <= 53).
  { destruct (Z_le_gt_dec a 53) as [|Hgt]; [assumption|].
    assert (2 ^ 54 <= 2 ^ a) by (apply Z.pow_le_mono_r; lia).
    assert (2 ^ 53 < 2 ^ 54) by (apply Z.pow_lt_mono_r; lia). lia. }
  assert (Hat : atLeastPow2 n 1 a = true).
  { unfold atLeastPow2. replace (0 <=? a) with true by (symmetry; apply Z.leb_le; lia).
    apply Z.leb_le. lia. }
  rewrite Hat. rewrite Z.max_l by lia.
  destruct (0 <=? a - 52) eqn:Hk.
  - apply Z.leb_le in Hk. rewrite Z.mul_1_l.
    assert (Hdiv : exists m, n = m * 2 ^ (a - 52)).
    { destruct (Z.eq_dec a 52) as [E | E].
      - exists n. rewrite E. simpl. lia.
      - assert (a = 53) as E' by lia. exists (2 ^ 52). rewrite E' in *.
        change (2 ^ (52 + 1)) with (2 ^ 53) in Hhi. simpl (53 - 52).
        change (2 ^ 52 * 2 ^ 1) with (2 ^ 53). lia. }
    destruct Hdiv as [m Hm].
    assert (Hpow : 0 < 2 ^ (a - 52)) by (apply Z.pow_pos_nonneg; lia).
    assert (Hr : roundHalfEven n (2 ^ (a - 52)) * 2 ^ (a - 52) = n)
      by (rewrite Hm at 1; rewrite roundHalfEven_exact by assumption; lia).
    rewrite !Hr.
    replace (2 ^ 1024 <=? n) with false.
    2:{ symmetry. apply Z.leb_gt.
        assert (2 ^ 53 < 2 ^ 1024) by (apply Z.pow_lt_mono_r; lia). lia. }
    cbn [andb]. f_equal. apply Qred_integer.
    destruct (z <? 0) eqn:Hs.
    + apply Z.ltb_lt in Hs. unfold Qeq. cbn [Qnum Qden inject_Z Qopp]. lia.
    + apply Z.ltb_ge in Hs. unfold Qeq. cbn [Qnum Qden inject_Z]. lia.
  - apply Z.leb_gt in Hk. cbn [andb].
    assert (Hpow : 0 < 2 ^ (- (a - 52))) by (apply Z.pow_pos_nonneg; lia).
    rewrite <- (Z.mul_1_r (n * 2 ^ (- (a - 52)))).
    rewrite roundHalfEven_exact by lia.
    f_equal. apply Qred_integer.
    destruct (z <? 0) eqn:Hs.
    + apply Z.ltb_lt in Hs. unfold Qeq. cbn [Qnum Qden inject_Z Qopp].
      rewrite Z2Pos.id by assumption. lia.
    + apply Z.ltb_ge in Hs. unfold Qeq. cbn [Qnum Qden inject_Z].
      rewrite Z2Pos.id by assumption. lia.
Qed.

(** A double is a reduced fraction, or infinite. *)
Lemma toDouble_shape q :
  (exists r, toDouble q = VNum r /\ Qred r = r) \/ exists s, toDouble q = VInfinity s.
Proof.
  unfold toDouble.
  destruct (Z.abs (Qnum (Qred q)) =? 0); [left; exists 0%Q; split; reflexivity|].
  match goal with |- context [if ?c then VInfinity _ else _] => destruct c end.
  - right. eauto.
  - left. eexists. split; [reflexivity|]. apply Qred_complete, Qred_correct.
Qed.

(** A string that starts with a digit from 1 to 9 has no white space, sign or
    hexadecimal prefix for [parseInt] to take off. *)
Lemma parseInt_plain k rest :
  1 <= k <= 9 ->
  parseInt (String (digit_char k) rest)
    = match parse_digits 10 (String (digit_char k) rest) None with
      | Some n => toDouble (inject_Z (1 * n))
      | None => VNaN
      end.
Proof.
  intros Hk.
  assert (H : k = 1 \/ k = 2 \/ k = 3 \/ k = 4 \/ k = 5 \/ k = 6 \/ k = 7
              \/ k = 8 \/ k = 9) by lia.
  repeat (destruct H as [-> | H]; [reflexivity|]). now subst.
Qed.

(** Up to 2^53 [parseInt] reads a numeral exactly. *)
Lemma parseInt_decimal n tail :
  0 < n <= 2 ^ 53 -> ends_number tail = true ->
  parseInt (String.append (decimal n) tail) = VNum (inject_Z n).
Proof.
  intros Hn Ht.
  pose proof (parse_digits_decimal n tail ltac:(lia) Ht) as Hp.
  destruct (decimal_head n ltac:(lia)) as (k & rest & Hk & E).
  rewrite E in *. simpl String.append in *.
  rewrite parseInt_plain by assumption. rewrite Hp.
  rewrite Z.mul_1_l. apply toDouble_integer; [reflexivity | lia].
Qed.

Lemma parseInt_integerToString z :
  Z.abs z <= 2 ^ 53 -> parseInt (integerToString z) = VNum (inject_Z z).
Proof.
  intros Hz. unfold integerToString. destruct (z <? 0) eqn:Hneg.
  - apply Z.ltb_lt in Hneg.
    pose proof (parse_digits_decimal (- z) EmptyString ltac:(lia) eq_refl) as Hp.
    rewrite append_empty_r in Hp.
    destruct (decimal_head (- z) ltac:(lia)) as (k & rest & Hk & E).
    rewrite E in *.
    assert (H : k = 1 \/ k = 2 \/ k = 3 \/ k = 4 \/ k = 5 \/ k = 6 \/ k = 7
                \/ k = 8 \/ k = 9) by lia.
    assert (Hgoal : parseInt (String "-" (String (digit_char k) rest))
                    = match parse_digits 10 (String (digit_char k) rest) None with
                      | Some n => toDouble (inject_Z (-1 * n))
                      | None => VNaN
                      end).
    { repeat (destruct H as [-> | H]; [reflexivity|]). now subst. }
    rewrite Hgoal, Hp. replace (-1 * - z) with z by lia.
    apply toDouble_integer; [reflexivity | assumption].
  - apply Z.ltb_ge in Hneg. destruct (Z.eq_dec z 0) as [-> | Hz0]; [reflexivity|].
    rewrite <- (append_empty_r (decimal z)). apply parseInt_decimal; [lia | reflexivity].
Qed.

(** [parseInt] gives NaN, a double or an infinity. *)
Lemma parseInt_shape s :
  parseInt s = VNaN
  \/ (exists r, parseInt s = VNum r /\ Qred r = r)
  \/ exists b, parseInt s = VInfinity b.
Proof.
  unfold parseInt.
  destruct (match skip_space s with
            | String "-" rest => (-1, rest)
            | String "+" rest => (1, rest)
            | _ => (1, skip_space s)
            end) as [sign s2].
  destruct (match s2 with
            | String "0" (String "x" rest) => (16, rest)
            | String "0" (String "X" rest) => (16, rest)
            | _ => (10, s2)
            end) as [radix s3].
  destruct (parse_digits radix s3 None); [right; apply toDouble_shape | now left].
Qed.

End TextFacts.

(** ** URLs *)

Module UrlFacts.
Import JS Text TextFacts.

Lemma digit_char_is_not c k :
  0 <= k < 10 -> digit_val 10 c = None -> Ascii.eqb (digit_char k) c = false.
Proof.
  intros Hk Hc. destruct (Ascii.eqb (digit_char k) c) eqn:E; [|reflexivity].
  apply Ascii.eqb_eq in E. subst c.
  rewrite digit_val_digit_char in Hc by assumption. discriminate.
Qed.

(** A numeral holds digits only. *)
Lemma digits_without c f : forall n acc,
  digit_val 10 c = None -> 0 <= n ->
  without c (digits f n acc) = without c acc.
Proof.
  induction f as [|f IH]; intros n acc Hc Hn; [reflexivity|].
  rewrite digits_step.
  assert (Hd : without c (String (digit_char (n mod 10)) acc) = without c acc).
  { simpl. rewrite digit_char_is_not; [reflexivity | apply Z.mod_pos_bound; lia | assumption]. }
  destruct (n <? 10); [exact Hd|].
  rewrite IH; [exact Hd | assumption | apply Z.div_pos; lia].
Qed.

Lemma integerToString_without c z :
  digit_val 10 c = None -> Ascii.eqb "-" c = false ->
  without c (integerToString z) = true.
Proof.
  intros Hc Hm. unfold integerToString, decimal.
  destruct (z <? 0) eqn:Hneg.
  - apply Z.ltb_lt in Hneg. cbn [without]. rewrite Hm. cbn [negb andb].
    now rewrite digits_without by (assumption || lia).
  - apply Z.ltb_ge in Hneg. now rewrite digits_without by assumption.
Qed.

Lemma toLowerCase_app a b :
  toLowerCase (String.append a b) = String.append (toLowerCase a) (toLowerCase b).
Proof. induction a as [|x a IH]; simpl; [reflexivity | now rewrite IH]. Qed.

(** A piece of the lowered string is the lowering of a piece of the string. *)
Lemma toLowerCase_split u : forall a b,
  toLowerCase u = String.append a b ->
  exists u1 u2, u = String.append u1 u2 /\ toLowerCase u1 = a /\ toLowerCase u2 = b.
Proof.
  induction u as [|x u IH]; intros a b H.
  - destruct a; [|discriminate]. simpl in H. subst b.
    exists EmptyString, EmptyString. auto.
  - destruct a as [|y a].
    + exists EmptyString, (String x u). auto.
    + simpl in H. injection H as Hy Hu.
      destruct (IH _ _ Hu) as (u1 & u2 & -> & H1 & H2).
      exists (String x u1), u2. simpl. rewrite Hy, H1. auto.
Qed.

Lemma prefix_iff n s : String.prefix n s = true <-> exists post, s = String.append n post.
Proof.
  revert s; induction n as [|a n IH]; intros [|b s]; simpl.
  - split; [intros _; now exists EmptyString | reflexivity].
  - split; [intros _; now exists (String b s) | reflexivity].
  - split; [discriminate | intros [post [=]]].
  - destruct (ascii_dec a b) as [<- | Hne].
    + rewrite IH. split; intros [post H]; exists post; [now rewrite H | now injection H].
    + split; [discriminate | intros [post [= E _]]; now destruct Hne].
Qed.

(** [indexOf] finds the needle exactly when it occurs. *)
Lemma stringIndexOf_from_found n s : forall i,
  0 <= i ->
  (-1 <? stringIndexOf_from n s i) = true
  <-> exists pre post, s = String.append pre (String.append n post).
Proof.
  induction s as [|a s IH]; intros i Hi; cbn [stringIndexOf_from].
  - destruct (String.prefix n EmptyString) eqn:E.
    + apply prefix_iff in E as [post E].
      split; [intros _; now exists EmptyString, post | intros _; apply Z.ltb_lt; lia].
    + split; [discriminate|]. intros (pre & post & H).
      destruct pre; [|discriminate]. simpl in H.
      assert (String.prefix n EmptyString = true) by (apply prefix_iff; eauto).
      congruence.
  - destruct (String.prefix n (String a s)) eqn:E.
    + apply prefix_iff in E as [post E].
      split; [intros _; now exists EmptyString, post | intros _; apply Z.ltb_lt; lia].
    + rewrite IH by lia. split.
      * intros (pre & post & ->). now exists (String a pre), post.
      * intros (pre & post & H). destruct pre as [|b pre].
        -- simpl in H.
           assert (String.prefix n (String a s) = true) by (apply prefix_iff; eauto).
           congruence.
        -- injection H as _ ->. eauto.
Qed.

(** The lowered [u] contains [needle] exactly when [u] contains it in some
    mix of cases. *)
Lemma contains_any_case needle u :
  (-1 <? stringIndexOf needle (toLowerCase u)) = true
  <-> exists pre s post,
        u = String.append pre (String.append s post) /\ toLowerCase s = needle.
Proof.
  unfold stringIndexOf. rewrite stringIndexOf_from_found by lia. split.
  - intros (a & b & H).
    destruct (toLowerCase_split _ _ _ H) as (pre & rest & -> & Hpre & Hrest).
    destruct (toLowerCase_split _ _ _ Hrest) as (s & post & -> & Hs & Hpost).
    now exists pre, s, post.
  - intros (pre & s & post & -> & <-).
    exists (toLowerCase pre), (toLowerCase post). now rewrite !toLowerCase_app.
Qed.

End UrlFacts.

Section Urls.
Import JS Text TextFacts UrlFacts.

(** X1. [getVimeoId] ignores a query string: whatever follows the first
    question mark does not change the result. *)
Theorem getVimeoId_strips_query (u q : string) :
  without "?" u = true ->
  VimeoApi.getVimeoId (VStr (String.append u (String "?" q)))
    = VimeoApi.getVimeoId (VStr u).
Proof.
  intros Hu. unfold VimeoApi.getVimeoId, split.
  rewrite split_aux_cut, split_aux_whole by assumption. reflexivity.
Qed.

Lemma getVimeoId_strips_query_witness :
  without "?" "https://vimeo.com/59777392" = true
  /\ VimeoApi.getVimeoId (VStr "https://vimeo.com/59777392?autoplay=1&t=/12")
     = VimeoApi.getVimeoId (VStr "https://vimeo.com/59777392").
Proof.
  split; [reflexivity|].
  exact (getVimeoId_strips_query "https://vimeo.com/59777392" "autoplay=1&t=/12" eq_refl).
Defined.

(** X2. A URL whose path ends in a slash has no id: [getVimeoId] gives NaN,
    with or without a query string behind the slash. *)
Theorem getVimeoId_trailing_slash (u : string) :
  without "?" u = true ->
  VimeoApi.getVimeoId (VStr (String.append u "/")) = Value VNaN
  /\ forall q,
       VimeoApi.getVimeoId (VStr (String.append u (String "/" (String "?" q))))
       = Value VNaN.
Proof.
  intros Hu.
  assert (H : VimeoApi.getVimeoId (VStr (String.append u "/")) = Value VNaN)
    by now rewrite getVimeoId_after_slash.
  split; [exact H|]. intros q.
  replace (String.append u (String "/" (String "?" q)))
    with (String.append (String.append u "/") (String "?" q))
    by now rewrite append_assoc.
  rewrite getVimeoId_strips_query; [exact H|].
  rewrite without_app, Hu. reflexivity.
Qed.

Lemma getVimeoId_trailing_slash_witness :
  without "?" "https://vimeo.com/59777392" = true
  /\ VimeoApi.getVimeoId (VStr "https://vimeo.com/59777392/") = Value VNaN.
Proof.
  split; [reflexivity|].
  exact (proj1 (getVimeoId_trailing_slash "https://vimeo.com/59777392" eq_refl)).
Defined.



(** Beyond 2^53 the id is the nearest double, and soon infinite. *)
Example getVimeoId_rounds :
  VimeoApi.getVimeoId (VStr "https://vimeo.com/9007199254740993")
    = Value (VNum (inject_Z 9007199254740992))
  /\ VimeoApi.getVimeoId (VStr "https://vimeo.com/99999999999999999999999")
    = Value (VNum (inject_Z 99999999999999991611392))
  /\ VimeoApi.getVimeoId (VStr (String.append "https://vimeo.com/" (decimal (10 ^ 309))))
    = Value (VInfinity false).
Proof. vm_compute. repeat split. Qed.

(** X4. The address [create] gives the iframe names the same video as the
    source it was built from, and the type check recognises it as Vimeo. *)
Theorem standardUrl_round_trip (src0 u : string) :
  VimeoUrl.standardUrl src0 = Some u ->
  VimeoApi.getVimeoId (VStr u) = VimeoApi.getVimeoId (VStr src0)
  /\ VimeoUrl.typeCheck (VStr u) = Value (VStr "video/x-vimeo").
Proof.
  unfold VimeoUrl.standardUrl.
  assert (Hshape : exists t, VimeoApi.getVimeoId (VStr src0) = Value (parseInt t)).
  { unfold VimeoApi.getVimeoId, split.
    destruct (split_aux "?" src0 EmptyString) eqn:E;
      [now apply split_aux_nonempty in E | eauto]. }
  destruct Hshape as [t ->].
  destruct (parseInt_shape t) as [-> | [(r & -> & Hr) | [b ->]]]; cbn [toText].
  - intros [= <-]. split; vm_compute; reflexivity.
  - rewrite Hr. destruct r as [z den]. cbn [Qnum Qden].
    destruct ((Z.pos den =? 1) && (Z.abs z <=? 2 ^ 53)) eqn:Hint; [|discriminate].
    apply andb_true_iff in Hint as [Hden Hmax].
    apply Z.eqb_eq in Hden. apply Z.leb_le in Hmax.
    replace den with 1%positive by lia. change (z # 1)%Q with (inject_Z z).
    intros [= <-]. split.
    + pose proof (getVimeoId_after_slash "https://player.vimeo.com/video"
                    (integerToString z) eq_refl
                    (integerToString_without "?" z eq_refl eq_refl)
                    (integerToString_without "/" z eq_refl eq_refl)) as E.
      rewrite parseInt_integerToString in E by assumption. exact E.
    + vm_compute. reflexivity.
  - discriminate.
Qed.

Lemma standardUrl_round_trip_witness :
  VimeoUrl.standardUrl "https://vimeo.com/59777392?x=1"
    = Some "https://player.vimeo.com/video/59777392"
  /\ VimeoApi.getVimeoId (VStr "https://player.vimeo.com/video/59777392")
     = VimeoApi.getVimeoId (VStr "https://vimeo.com/59777392?x=1").
Proof.
  split; [reflexivity|].
  exact (proj1 (standardUrl_round_trip "https://vimeo.com/59777392?x=1"
                  "https://player.vimeo.com/video/59777392" eq_refl)).
Defined.

(** X5. The Vimeo type check answers ['video/x-vimeo'] exactly for the
    strings that contain [player.vimeo] or [vimeo.com] in any mix of upper and
    lower case, and [null] for every other string; what it answers is a type
    the Vimeo renderer can play; on [null] or [undefined] it throws. *)
Theorem vimeo_typeCheck_any_case :
  (forall u,
     VimeoUrl.typeCheck (VStr u) = Value (VStr "video/x-vimeo")
     <-> exists pre s post,
           u = String.append pre (String.append s post)
           /\ (toLowerCase s = "player.vimeo" \/ toLowerCase s = "vimeo.com"))
  /\ (forall u,
        VimeoUrl.typeCheck (VStr u) = Value (VStr "video/x-vimeo")
        \/ VimeoUrl.typeCheck (VStr u) = Value VNull)
  /\ (forall url t,
        VimeoUrl.typeCheck url = Value t -> t <> VNull -> Vimeo.canPlayType t = true)
  /\ VimeoUrl.typeCheck VNull = Throw TypeError
  /\ VimeoUrl.typeCheck VUndefined = Throw TypeError.
Proof.
  assert (Hcases : forall u,
            VimeoUrl.typeCheck (VStr u) = Value (VStr "video/x-vimeo")
            \/ VimeoUrl.typeCheck (VStr u) = Value VNull).
  { intros u. unfold VimeoUrl.typeCheck. cbv zeta.
    destruct (_ || _); auto. }
  split; [|split; [exact Hcases | split; [|split; reflexivity]]].
  - intros u. unfold VimeoUrl.typeCheck. cbv zeta.
    destruct ((-1 <? stringIndexOf "player.vimeo" (toLowerCase u))
              || (-1 <? stringIndexOf "vimeo.com" (toLowerCase u))) eqn:E.
    + split; [intros _ | reflexivity].
      apply orb_true_iff in E as [E | E]; apply contains_any_case in E;
        destruct E as (pre & s & post & -> & Hs); exists pre, s, post; auto.
    + split; [discriminate|].
      intros (pre & s & post & -> & [Hs | Hs]); apply orb_false_iff in E as [E1 E2].
      * assert (H : (-1 <? stringIndexOf "player.vimeo"
                            (toLowerCase (String.append pre (String.append s post)))) = true)
          by (apply contains_any_case; eauto).
        congruence.
      * assert (H : (-1 <? stringIndexOf "vimeo.com"
                            (toLowerCase (String.append pre (String.append s post)))) = true)
          by (apply contains_any_case; eauto).
        congruence.
  - intros url t H Hnn. destruct url; try discriminate.
    destruct (Hcases s) as [E | E]; rewrite E in H; injection H as <-;
      [reflexivity | contradiction].
Qed.

(** X6. The SoundCloud type check answers ['video/x-soundcloud'] exactly for
    the strings that contain [soundcloud.com] in any mix of upper and lower
    case, and [null] for every other string; what it answers is a type the
    SoundCloud renderer can play; on [null] or [undefined] it throws. *)
Theorem soundcloud_typeCheck_any_case :
  (forall u,
     SoundCloudUrl.typeCheck (VStr u) = Value (VStr "video/x-soundcloud")
     <-> exists pre s post,
           u = String.append pre (String.append s post)
           /\ toLowerCase s = "soundcloud.com")
  /\ (forall u,
        SoundCloudUrl.typeCheck (VStr u) = Value (VStr "video/x-soundcloud")
        \/ SoundCloudUrl.typeCheck (VStr u) = Value VNull)
  /\ (forall url t,
        SoundCloudUrl.typeCheck url = Value t -> t <> VNull ->
        SoundCloud.canPlayType t = true)
  /\ SoundCloudUrl.typeCheck VNull = Throw TypeError
  /\ SoundCloudUrl.typeCheck VUndefined = Throw TypeError.
Proof.
  assert (Hcases : forall u,
            SoundCloudUrl.typeCheck (VStr u) = Value (VStr "video/x-soundcloud")
            \/ SoundCloudUrl.typeCheck (VStr u) = Value VNull).
  { intros u. unfold SoundCloudUrl.typeCheck. destruct (_ <? _); auto. }
  split; [|split; [exact Hcases | split; [|split; reflexivity]]].
  - intros u. unfold SoundCloudUrl.typeCheck.
    destruct (-1 <? stringIndexOf "soundcloud.com" (toLowerCase u)) eqn:E.
    + split; [intros _ | reflexivity]. now apply contains_any_case in E.
    + split; [discriminate|]. intros H. apply contains_any_case in H. congruence.
  - intros url t H Hnn. destruct url; try discriminate.
    destruct (Hcases s) as [E | E]; rewrite E in H; injection H as <-;
      [reflexivity | contradiction].
Qed.

End Urls.

(** ** The Zepto patch *)

Module ZeptoFacts.
Import JS Text TextFacts.

Lemma decimal_head_digit n :
  0 <= n -> exists k rest, 0 <= k <= 9 /\ decimal n = String (digit_char k) rest.
Proof.
  intros Hn. destruct (Z.eq_dec n 0) as [-> | Hz].
  - exists 0, EmptyString. split; [lia | reflexivity].
  - destruct (decimal_head n) as (k & rest & Hk & E); [lia|].
    exists k, rest. split; [lia | exact E].
Qed.

(** With radix 10 a leading digit is read as it stands, behind a minus sign
    too. *)
Lemma parseInt10_plain k rest :
  0 <= k <= 9 ->
  parseInt10 (String (digit_char k) rest)
    = match parse_digits 10 (String (digit_char k) rest) None with
      | Some n => toDouble (inject_Z (1 * n))
      | None => VNaN
      end
  /\ parseInt10 (String "-" (String (digit_char k) rest))
    = match parse_digits 10 (String (digit_char k) rest) None with
      | Some n => toDouble (inject_Z (-1 * n))
      | None => VNaN
      end.
Proof.
  intros Hk.
  assert (H : k = 0 \/ k = 1 \/ k = 2 \/ k = 3 \/ k = 4 \/ k = 5 \/ k = 6 \/ k = 7
              \/ k = 8 \/ k = 9) by lia.
  repeat (destruct H as [-> | H]; [split; reflexivity|]). subst. split; reflexivity.
Qed.

(** Up to 2^53 [parseInt(s, 10)] reads a numeral exactly. *)
Lemma parseInt10_integer z tail :
  Z.abs z <= 2 ^ 53 -> ends_number tail = true ->
  parseInt10 (String.append (integerToString z) tail) = VNum (inject_Z z).
Proof.
  intros Hz Ht. unfold integerToString. destruct (z <? 0) eqn:Hneg.
  - apply Z.ltb_lt in Hneg.
    pose proof (parse_digits_decimal (- z) tail ltac:(lia) Ht) as Hp.
    destruct (decimal_head_digit (- z) ltac:(lia)) as (k & rest & Hk & E).
    rewrite E in *. cbn [String.append] in *.
    rewrite (proj2 (parseInt10_plain k _ Hk)), Hp.
    replace (-1 * - z) with z by lia. apply toDouble_integer; [reflexivity | assumption].
  - apply Z.ltb_ge in Hneg.
    pose proof (parse_digits_decimal z tail Hneg Ht) as Hp.
    destruct (decimal_head_digit z Hneg) as (k & rest & Hk & E).
    rewrite E in *. cbn [String.append] in *.
    rewrite (proj1 (parseInt10_plain k _ Hk)), Hp, Z.mul_1_l.
    apply toDouble_integer; [reflexivity | assumption].
Qed.

(** Integers add exactly as long as the sum stays within 2^53. *)
Lemma add_integers x y :
  Z.abs (x + y) <= 2 ^ 53 ->
  add (VNum (inject_Z x)) (VNum (inject_Z y)) = VNum (inject_Z (x + y)).
Proof.
  intros H. cbn [add]. rewrite <- inject_Z_plus.
  apply toDouble_integer; [reflexivity | assumption].
Qed.

End ZeptoFacts.

Section ZeptoWidth.
Import JS Text.

(** X7. [outerWidth] returns the plain width unless [includeMargin] is
    truthy; with it, and with an integer width (Zepto rounds the width it
    reports), it adds the integers the two margins start with, whatever unit
    follows them, as long as the width, the margins and the two sums stay
    within 2^53, where doubles hold every integer; and a margin that
    [parseInt] cannot read makes the result NaN. *)
Theorem zepto_outerWidth_margins (includeMargin : value) :
  (truthy includeMargin = false ->
   forall width marginRight marginLeft,
     Zepto.outerWidth width marginRight marginLeft includeMargin = VNum width)
  /\ (truthy includeMargin = true ->
      forall w r l unitR unitL,
        ends_number unitR = true -> ends_number unitL = true ->
        Z.abs w <= 2 ^ 53 -> Z.abs r <= 2 ^ 53 -> Z.abs l <= 2 ^ 53 ->
        Z.abs (w + r) <= 2 ^ 53 -> Z.abs (w + r + l) <= 2 ^ 53 ->
        Zepto.outerWidth (inject_Z w) (String.append (integerToString r) unitR)
          (String.append (integerToString l) unitL) includeMargin
        = VNum (inject_Z (w + r + l)))
  /\ (truthy includeMargin = true ->
      forall width marginRight marginLeft,
        parseInt10 marginRight = VNaN \/ parseInt10 marginLeft = VNaN ->
        Zepto.outerWidth width marginRight marginLeft includeMargin = VNaN).
Proof.
  unfold Zepto.outerWidth. split; [|split]; intros Hm; rewrite Hm.
  - reflexivity.
  - intros w r l unitR unitL Hr Hl Hw Hrmax Hlmax Hwr Hwrl.
    rewrite !ZeptoFacts.parseInt10_integer by assumption.
    now rewrite !ZeptoFacts.add_integers by assumption.
  - intros width marginRight marginLeft [H | H]; rewrite H; [reflexivity|].
    now destruct (add (VNum width) (parseInt10 marginRight)).
Qed.

Lemma zepto_outerWidth_margins_witness :
  truthy (VBool true) = true /\ truthy VUndefined = false
  /\ Zepto.outerWidth (inject_Z 100) "10px" "-5px" (VBool true) = VNum (inject_Z 105)
  /\ Zepto.outerWidth 100 "10px" "auto" (VBool true) = VNaN
  /\ Zepto.outerWidth 100 "10px" "auto" VUndefined = VNum 100.
Proof.
  destruct (zepto_outerWidth_margins (VBool true)) as (_ & Hsum & Hnan).
  destruct (zepto_outerWidth_margins VUndefined) as (Hplain & _).
  split; [reflexivity|]. split; [reflexivity|]. split; [|split].
  - apply (Hsum eq_refl 100 10 (-5) "px" "px"); (reflexivity || (simpl; lia)).
  - apply (Hnan eq_refl). right. reflexivity.
  - apply (Hplain eq_refl).
Defined.

(** Past 2^53 the sum is rounded, and a width with a fraction keeps it. *)
Example zepto_outerWidth_rounds :
  Zepto.outerWidth (inject_Z (2 ^ 53)) "1px" "0px" (VBool true) = VNum (inject_Z (2 ^ 53))
  /\ Zepto.outerWidth (inject_Z (2 ^ 53)) "1px" "2px" (VBool true)
     = VNum (inject_Z (2 ^ 53 + 2))
  /\ Zepto.outerWidth (201 # 2) "10px" "0px" (VBool true) = VNum (221 # 2).
Proof. vm_compute. repeat split. Qed.

End ZeptoWidth.

(** ** More on the loaders *)

Module LoaderFacts.

Lemma vimeo_act_queue a w o :
  VimeoApi.this w = ThisObject o -> VimeoApi.isLoaded (VimeoApi.api w) = false ->
  (exists o', VimeoApi.this (VimeoApi.act a w) = ThisObject o')
  /\ VimeoApi.isLoaded (VimeoApi.api (VimeoApi.act a w)) = false
  /\ VimeoApi.iframeQueue (VimeoApi.api (VimeoApi.act a w))
     = VimeoApi.iframeQueue (VimeoApi.api w)
         ++ match a with VimeoApi.Enqueue s => [s] | _ => [] end.
Proof.
  intros Ht Hl. destruct a as [s|k|]; unfold VimeoApi.act.
  - unfold VimeoApi.enqueueIframe, VimeoApi.loadIframeApi. rewrite Hl, Ht.
    destruct (this_started o); simpl; rewrite ?Ht; eauto.
  - unfold VimeoApi.scriptOnload, VimeoApi.iFrameReady.
    destruct (VimeoApi.scripts w !! k) as [[|]|]; simpl; rewrite ?Ht, ?app_nil_r; eauto.
    destruct (VimeoApi.readyStateOk o); simpl; rewrite ?Ht; simpl; rewrite ?app_nil_r; eauto.
  - unfold VimeoApi.onVimeoPlayerAPIReady, VimeoApi.iFrameReady. rewrite Ht. simpl.
    rewrite app_nil_r. eauto.
Qed.

Lemma soundcloud_act_queue a w o :
  SoundCloudApi.this w = ThisObject o ->
  SoundCloudApi.isLoaded (SoundCloudApi.api w) = false ->
  (exists o', SoundCloudApi.this (SoundCloudApi.act a w) = ThisObject o')
  /\ SoundCloudApi.isLoaded (SoundCloudApi.api (SoundCloudApi.act a w)) = false
  /\ SoundCloudApi.iframeQueue (SoundCloudApi.api (SoundCloudApi.act a w))
     = SoundCloudApi.iframeQueue (SoundCloudApi.api w)
         ++ match a with SoundCloudApi.Enqueue s => [s] | _ => [] end.
Proof.
  intros Ht Hl. destruct a as [s|k]; unfold SoundCloudApi.act.
  - unfold SoundCloudApi.enqueueIframe, SoundCloudApi.loadIframeApi. rewrite Hl, Ht.
    destruct (this_started o); simpl; rewrite ?Ht; eauto.
  - unfold SoundCloudApi.scriptOnload, SoundCloudApi.apiReady.
    destruct (SoundCloudApi.scripts w !! k) as [[|]|]; simpl; rewrite ?Ht, ?app_nil_r; eauto.
    destruct (SoundCloudApi.readyStateOk o); simpl; rewrite ?Ht; simpl;
      rewrite ?app_nil_r; eauto.
Qed.

(** Once the script is in, it stays the only one. *)
Lemma vimeo_act_inserted a w :
  (length (VimeoApi.scripts w) = 1%nat
   /\ exists o, VimeoApi.this w = ThisObject o /\ this_started o = true) ->
  length (VimeoApi.scripts (VimeoApi.act a w)) = 1%nat
  /\ exists o, VimeoApi.this (VimeoApi.act a w) = ThisObject o /\ this_started o = true.
Proof.
  intros (Hlen & o & Ht & Hs). destruct a as [s|k|]; unfold VimeoApi.act.
  - unfold VimeoApi.enqueueIframe, VimeoApi.createIframe, VimeoApi.loadIframeApi.
    rewrite Ht, Hs. destruct (VimeoApi.isLoaded _); simpl; eauto.
  - unfold VimeoApi.scriptOnload, VimeoApi.iFrameReady.
    destruct (VimeoApi.scripts w !! k) as [[|]|]; simpl; eauto.
    rewrite Ht. destruct (VimeoApi.readyStateOk o); simpl; eauto.
    rewrite length_insert. eauto.
  - unfold VimeoApi.onVimeoPlayerAPIReady, VimeoApi.iFrameReady.
    rewrite Ht. simpl. eauto.
Qed.

Lemma soundcloud_act_inserted a w :
  (length (SoundCloudApi.scripts w) = 1%nat
   /\ exists o, SoundCloudApi.this w = ThisObject o /\ this_started o = true) ->
  length (SoundCloudApi.scripts (SoundCloudApi.act a w)) = 1%nat
  /\ exists o, SoundCloudApi.this (SoundCloudApi.act a w) = ThisObject o
               /\ this_started o = true.
Proof.
  intros (Hlen & o & Ht & Hs). destruct a as [s|k]; unfold SoundCloudApi.act.
  - unfold SoundCloudApi.enqueueIframe, SoundCloudApi.createIframe,
      SoundCloudApi.loadIframeApi.
    rewrite Ht, Hs. destruct (SoundCloudApi.isLoaded _); simpl; eauto.
  - unfold SoundCloudApi.scriptOnload, SoundCloudApi.apiReady.
    destruct (SoundCloudApi.scripts w !! k) as [[|]|]; simpl; eauto.
    rewrite Ht. destruct (SoundCloudApi.readyStateOk o); simpl; eauto.
    rewrite length_insert. eauto.
Qed.

End LoaderFacts.

Section Loaders.

(** X8. In module code, where the arrow functions' [this] is [undefined],
    nothing ever changes either loader: after any run it is in its initial
    state, with no script tag whose handler could fire; every
    [enqueueIframe] throws a [TypeError] before it queues the request,
    [loadIframeApi] throws it before it creates the script tag, and the load
    callbacks, [iFrameReady] (which [onVimeoPlayerAPIReady] calls) and
    [apiReady], throw it before they mark anything loaded. *)
Theorem loader_inert_in_module_code :
  (forall acts,
     let w := VimeoApi.run acts (VimeoApi.initial ThisUndefined) in
     w = VimeoApi.initial ThisUndefined
     /\ VimeoApi.scripts w = []
     /\ (forall s, VimeoApi.enqueueIframe s w = Thrown TypeError w)
     /\ VimeoApi.loadIframeApi w = Thrown TypeError w
     /\ VimeoApi.iFrameReady w = Thrown TypeError w
     /\ VimeoApi.onVimeoPlayerAPIReady w = Thrown TypeError w
     /\ (forall k, VimeoApi.scriptOnload k w = Returned w))
  /\ (forall acts,
     let w := SoundCloudApi.run acts (SoundCloudApi.initial ThisUndefined) in
     w = SoundCloudApi.initial ThisUndefined
     /\ SoundCloudApi.scripts w = []
     /\ (forall s, SoundCloudApi.enqueueIframe s w = Thrown TypeError w)
     /\ SoundCloudApi.loadIframeApi w = Thrown TypeError w
     /\ SoundCloudApi.apiReady w = Thrown TypeError w
     /\ (forall k, SoundCloudApi.scriptOnload k w = Returned w)).
Proof.
  split; intros acts; cbv zeta.
  - assert (H : VimeoApi.run acts (VimeoApi.initial ThisUndefined)
                = VimeoApi.initial ThisUndefined).
    { induction acts as [|a acts IH]; [reflexivity|].
      simpl. replace (VimeoApi.act a (VimeoApi.initial ThisUndefined))
        with (VimeoApi.initial ThisUndefined) by now destruct a.
      exact IH. }
    rewrite H. repeat (split; [reflexivity|]). reflexivity.
  - assert (H : SoundCloudApi.run acts (SoundCloudApi.initial ThisUndefined)
                = SoundCloudApi.initial ThisUndefined).
    { induction acts as [|a acts IH]; [reflexivity|].
      simpl. replace (SoundCloudApi.act a (SoundCloudApi.initial ThisUndefined))
        with (SoundCloudApi.initial ThisUndefined) by now destruct a.
      exact IH. }
    rewrite H. repeat (split; [reflexivity|]). reflexivity.
Qed.

(** X9. Where a wrapper gives the arrow functions an object as [this], the
    requests pile up: after any run, the queue holds every request ever
    enqueued, in the order enqueued, none was taken out and none was turned
    into a surface. *)
Theorem loader_queue_under_wrapper (o : scopeObject) :
  (forall acts,
     let w := VimeoApi.run acts (VimeoApi.initial (ThisObject o)) in
     VimeoApi.iframeQueue (VimeoApi.api w)
       = omap (fun a => match a with VimeoApi.Enqueue s => Some s | _ => None end) acts
     /\ VimeoApi.created w = [])
  /\ (forall acts,
     let w := SoundCloudApi.run acts (SoundCloudApi.initial (ThisObject o)) in
     SoundCloudApi.iframeQueue (SoundCloudApi.api w)
       = omap (fun a => match a with SoundCloudApi.Enqueue s => Some s | _ => None end) acts
     /\ SoundCloudApi.created w = []).
Proof.
  split; intros acts; cbv zeta.
  - split; [|now apply VimeoApiFacts.run_keeps_unloaded].
    assert (H : forall w o',
              VimeoApi.this w = ThisObject o' -> VimeoApi.isLoaded (VimeoApi.api w) = false ->
              VimeoApi.iframeQueue (VimeoApi.api (VimeoApi.run acts w))
              = VimeoApi.iframeQueue (VimeoApi.api w)
                  ++ omap (fun a => match a with VimeoApi.Enqueue s => Some s | _ => None end)
                       acts).
    { induction acts as [|a acts IH]; intros w o' Ht Hl; simpl; [now rewrite app_nil_r|].
      destruct (LoaderFacts.vimeo_act_queue a w o' Ht Hl) as ([o'' Ht'] & Hl' & Hq).
      rewrite (IH _ o'' Ht' Hl'), Hq, <- app_assoc. now destruct a. }
    now rewrite (H (VimeoApi.initial (ThisObject o)) o eq_refl eq_refl).
  - split; [|now apply SoundCloudApiFacts.sc_run_keeps_unloaded].
    assert (H : forall w o',
              SoundCloudApi.this w = ThisObject o' ->
              SoundCloudApi.isLoaded (SoundCloudApi.api w) = false ->
              SoundCloudApi.iframeQueue (SoundCloudApi.api (SoundCloudApi.run acts w))
              = SoundCloudApi.iframeQueue (SoundCloudApi.api w)
                  ++ omap (fun a => match a with
                                    | SoundCloudApi.Enqueue s => Some s
                                    | _ => None
                                    end) acts).
    { induction acts as [|a acts IH]; intros w o' Ht Hl; simpl; [now rewrite app_nil_r|].
      destruct (LoaderFacts.soundcloud_act_queue a w o' Ht Hl) as ([o'' Ht'] & Hl' & Hq).
      rewrite (IH _ o'' Ht' Hl'), Hq, <- app_assoc. now destruct a. }
    now rewrite (H (SoundCloudApi.initial (ThisObject o)) o eq_refl eq_refl).
Qed.

(** X10. Each loader inserts its script tag at most once, whatever happens;
    where the arrow functions' [this] is an object that does not have the
    started flag yet, it is the first request that inserts it, and exactly
    one tag is there ever after. *)
Theorem script_inserted_once :
  (forall t,
     (forall acts,
        (length (VimeoApi.scripts (VimeoApi.run acts (VimeoApi.initial t))) <= 1)%nat)
     /\ (forall acts,
        (length (SoundCloudApi.scripts
                   (SoundCloudApi.run acts (SoundCloudApi.initial t))) <= 1)%nat))
  /\ (forall o, this_started o = false ->
      (forall s rest,
         length (VimeoApi.scripts
                   (VimeoApi.run (VimeoApi.Enqueue s :: rest)
                      (VimeoApi.initial (ThisObject o)))) = 1%nat)
      /\ (forall s rest,
         length (SoundCloudApi.scripts
                   (SoundCloudApi.run (SoundCloudApi.Enqueue s :: rest)
                      (SoundCloudApi.initial (ThisObject o)))) = 1%nat)).
Proof.
  split.
  - intros t. split; intros acts;
      [apply VimeoApiFacts.scripts_at_most_one
      | apply SoundCloudApiFacts.sc_scripts_at_most_one].
  - intros o Ho. split; intros s rest; simpl.
    + assert (H : forall w,
                (length (VimeoApi.scripts w) = 1%nat
                 /\ exists o', VimeoApi.this w = ThisObject o' /\ this_started o' = true) ->
                length (VimeoApi.scripts (VimeoApi.run rest w)) = 1%nat).
      { induction rest as [|a rest IH]; intros w Hw; simpl; [apply Hw|].
        apply IH. now apply LoaderFacts.vimeo_act_inserted. }
      apply H. unfold VimeoApi.act, VimeoApi.enqueueIframe, VimeoApi.loadIframeApi.
      simpl. rewrite Ho. simpl. eauto.
    + assert (H : forall w,
                (length (SoundCloudApi.scripts w) = 1%nat
                 /\ exists o', SoundCloudApi.this w = ThisObject o'
                               /\ this_started o' = true) ->
                length (SoundCloudApi.scripts (SoundCloudApi.run rest w)) = 1%nat).
      { induction rest as [|a rest IH]; intros w Hw; simpl; [apply Hw|].
        apply IH. now apply LoaderFacts.soundcloud_act_inserted. }
      apply H. unfold SoundCloudApi.act, SoundCloudApi.enqueueIframe,
        SoundCloudApi.loadIframeApi.
      simpl. rewrite Ho. simpl. eauto.
Qed.

Lemma script_inserted_once_witness :
  this_started emptyScope = false
  /\ length (VimeoApi.scripts
               (VimeoApi.run
                  [VimeoApi.Enqueue {| VimeoApi.iframe := 1; VimeoApi.id := "a_vimeo_iframe" |};
                   VimeoApi.ScriptEvent 0;
                   VimeoApi.Enqueue {| VimeoApi.iframe := 2; VimeoApi.id := "b_vimeo_iframe" |}]
                  (VimeoApi.initial (ThisObject emptyScope)))) = 1%nat.
Proof.
  split; [reflexivity|].
  destruct script_inserted_once as [_ H].
  destruct (H emptyScope eq_refl) as [Hv _]. apply Hv.
Defined.

(** X11. The script's load handler does its work once: a second load or
    readystatechange event of the same script leaves the loader as the first
    one left it. *)
Theorem script_event_idempotent (k : nat) :
  (forall w,
     VimeoApi.act (VimeoApi.ScriptEvent k) (VimeoApi.act (VimeoApi.ScriptEvent k) w)
     = VimeoApi.act (VimeoApi.ScriptEvent k) w)
  /\ (forall w,
     SoundCloudApi.act (SoundCloudApi.ScriptEvent k)
       (SoundCloudApi.act (SoundCloudApi.ScriptEvent k) w)
     = SoundCloudApi.act (SoundCloudApi.ScriptEvent k) w).
Proof.
  split; intros w.
  - unfold VimeoApi.act, VimeoApi.scriptOnload.
    destruct (VimeoApi.scripts w !! k) as [[|]|] eqn:Hk; simpl; rewrite ?Hk; simpl; auto.
    destruct (VimeoApi.this w) as [|o] eqn:Ht; simpl; rewrite ?Hk, ?Ht; simpl; auto.
    destruct (VimeoApi.readyStateOk o) eqn:Hr; simpl; rewrite ?Hk, ?Ht, ?Hr; simpl; auto.
    unfold VimeoApi.iFrameReady. simpl. rewrite Ht. simpl.
    rewrite list_lookup_insert_eq by (eapply lookup_lt_Some; exact Hk). reflexivity.
  - unfold SoundCloudApi.act, SoundCloudApi.scriptOnload.
    destruct (SoundCloudApi.scripts w !! k) as [[|]|] eqn:Hk; simpl; rewrite ?Hk; simpl; auto.
    destruct (SoundCloudApi.this w) as [|o] eqn:Ht; simpl; rewrite ?Hk, ?Ht; simpl; auto.
    destruct (SoundCloudApi.readyStateOk o) eqn:Hr; simpl; rewrite ?Hk, ?Ht, ?Hr; simpl; auto.
    unfold SoundCloudApi.apiReady. simpl. rewrite Ht. simpl.
    rewrite list_lookup_insert_eq by (eapply lookup_lt_Some; exact Hk). reflexivity.
Qed.

End Loaders.

(** ** More on the Vimeo renderer *)

Module VimeoReplayFacts.
Import JS Renderer Vimeo.

Lemma dispatched_emit_other target e st :
  match e with Dispatch _ _ => False | _ => True end ->
  dispatched target (emit e st) = dispatched target st.
Proof.
  intros He. unfold dispatched, emit. simpl. rewrite omap_app. simpl.
  destruct e; try contradiction; simpl; now rewrite app_nil_r.
Qed.

(** Invoking a setter or a method dispatches nothing and attaches nothing. *)
Lemma vimeo_replayItem_quiet c st :
  dispatched Owner (state_of (replayItem c st)) = dispatched Owner st
  /\ wired (state_of (replayItem c st)) = wired st
  /\ timers (state_of (replayItem c st)) = timers st.
Proof.
  destruct c as [propName v|methodName]; simpl.
  - unfold setProp. destruct (vimeoPlayer st); [|now split].
    cases; simpl; repeat split;
      try reflexivity; try (unfold request; simpl; apply (dispatched_emit_other Owner); exact I);
      apply (dispatched_emit_other Owner); exact I.
  - unfold callMethod. destruct (vimeoPlayer st); [|now split].
    cases; simpl; repeat split;
      try reflexivity; apply (dispatched_emit_other Owner); exact I.
Qed.

Lemma vimeo_invokeAll_quiet cs : forall st,
  dispatched Owner (invokeAll cs st) = dispatched Owner st
  /\ wired (invokeAll cs st) = wired st
  /\ timers (invokeAll cs st) = timers st.
Proof.
  induction cs as [|c cs IH]; intros st; simpl; [now split|].
  destruct (vimeo_replayItem_quiet c st) as (D & W & T).
  destruct (IH (state_of (replayItem c st))) as (D' & W' & T').
  repeat split; congruence.
Qed.

(** The loop invokes the replayable commands in front of a bad [src]
    command and is left by the [TypeError] of that one. *)
Lemma vimeo_replayLoop_stops before : forall done v after k st,
  is_Some (vimeoPlayer st) ->
  apiStack st = done ++ before ++ SetCmd "src" v :: after ->
  Forall (fun c => replayable c = true) before -> src_of v = None ->
  replayLoop (length before + S k) (length done) st
    = Thrown TypeError (invokeAll before st).
Proof.
  induction before as [|c bs IH]; intros done v after k st Hp Hq Hb Hv; simpl in *.
  - rewrite Hq, list_lookup_middle by reflexivity.
    destruct Hp as [p Hp]. simpl. unfold setProp. now rewrite Hp, Hv.
  - rewrite Hq, list_lookup_middle by reflexivity.
    inversion Hb as [|? ? Hc Hb']; subst.
    destruct (VimeoFacts.replayItem_returns c st Hp Hc) as [st' E].
    pose proof (VimeoFacts.replayItem_keeps c st) as (_ & _ & K).
    rewrite E in *; simpl in *. destruct (K Hp) as [Hp' Hq'].
    replace (S (length done)) with (length (done ++ [c]))
      by (rewrite length_app; simpl; lia).
    apply (IH (done ++ [c]) v after k st' Hp'); [|assumption|assumption].
    now rewrite Hq', Hq, <- app_assoc.
Qed.

Lemma vimeo_ready_stops p before v after st0 :
  vimeoPlayer st0 = None -> apiStack st0 = [] ->
  Forall (fun c => replayable c = true) before -> src_of v = None ->
  let queued := invokeAll (before ++ SetCmd "src" v :: after) st0 in
  ready p queued = Thrown TypeError (invokeAll before (attach p queued)).
Proof.
  intros Hp Hq Hb Hv. cbv zeta.
  rewrite (VimeoFacts.invokeAll_queues _ st0 Hp), Hq.
  change ([] ++ before ++ SetCmd "src" v :: after) with (before ++ SetCmd "src" v :: after).
  unfold ready; cbv zeta.
  set (q := attach p (set_apiStack (before ++ SetCmd "src" v :: after) st0)).
  change (apiStack q) with (before ++ SetCmd "src" v :: after).
  rewrite length_app. cbn [length].
  assert (E : replayLoop (length before + S (length after)) 0 q
              = Thrown TypeError (invokeAll before q)).
  { apply (vimeo_replayLoop_stops before [] v after (length after) q);
      [now eexists | reflexivity | assumption | assumption]. }
  now rewrite E.
Qed.

End VimeoReplayFacts.

Module SoundCloudReplayFacts.
Import JS Renderer SoundCloud.

Lemma sc_dispatched_emit_other target e st :
  match e with Dispatch _ _ => False | _ => True end ->
  dispatched target (emit e st) = dispatched target st.
Proof.
  intros He. unfold dispatched, emit. simpl. rewrite omap_app. simpl.
  destruct e; try contradiction; simpl; now rewrite app_nil_r.
Qed.

Lemma sc_replayItem_quiet c st :
  dispatched Owner (state_of (replayItem c st)) = dispatched Owner st
  /\ wired (state_of (replayItem c st)) = wired st.
Proof.
  destruct c as [propName v|methodName]; simpl.
  - unfold setProp. destruct (scPlayer st); [|now split].
    cases; simpl; repeat split;
      try reflexivity; apply (sc_dispatched_emit_other Owner); exact I.
  - unfold callMethod. destruct (scPlayer st); [|now split].
    cases; simpl; repeat split;
      try reflexivity; apply (sc_dispatched_emit_other Owner); exact I.
Qed.

Lemma sc_invokeAll_quiet cs : forall st,
  dispatched Owner (invokeAll cs st) = dispatched Owner st
  /\ wired (invokeAll cs st) = wired st.
Proof.
  induction cs as [|c cs IH]; intros st; simpl; [now split|].
  destruct (sc_replayItem_quiet c st) as (D & W).
  destruct (IH (state_of (replayItem c st))) as (D' & W').
  split; congruence.
Qed.

Lemma sc_replayLoop_stops before : forall done v after k st,
  is_Some (scPlayer st) ->
  apiStack st = done ++ before ++ SetCmd "src" v :: after ->
  Forall (fun c => replayable c = true) before -> src_of v = None ->
  replayLoop (length before + S k) (length done) st
    = Thrown TypeError (invokeAll before st).
Proof.
  induction before as [|c bs IH]; intros done v after k st Hp Hq Hb Hv; simpl in *.
  - rewrite Hq, list_lookup_middle by reflexivity.
    destruct Hp as [p Hp]. simpl. unfold setProp. now rewrite Hp, Hv.
  - rewrite Hq, list_lookup_middle by reflexivity.
    inversion Hb as [|? ? Hc Hb']; subst.
    destruct (SoundCloudFacts.sc_replayItem_returns c st Hp Hc) as [st' E].
    pose proof (SoundCloudFacts.sc_replayItem_keeps c st) as (_ & _ & _ & K).
    rewrite E in *; simpl in *. destruct (K Hp) as [Hp' Hq'].
    replace (S (length done)) with (length (done ++ [c]))
      by (rewrite length_app; simpl; lia).
    apply (IH (done ++ [c]) v after k st' Hp'); [|assumption|assumption].
    now rewrite Hq', Hq, <- app_assoc.
Qed.

Lemma sc_ready_stops p before v after st0 :
  scPlayer st0 = None -> apiStack st0 = [] ->
  Forall (fun c => replayable c = true) before -> src_of v = None ->
  let queued := invokeAll (before ++ SetCmd "src" v :: after) st0 in
  ready p queued = Thrown TypeError (invokeAll before (attach p queued)).
Proof.
  intros Hp Hq Hb Hv. cbv zeta.
  rewrite (SoundCloudFacts.sc_invokeAll_queues _ st0 Hp), Hq.
  change ([] ++ before ++ SetCmd "src" v :: after) with (before ++ SetCmd "src" v :: after).
  unfold ready; cbv zeta.
  set (q := attach p (set_apiStack (before ++ SetCmd "src" v :: after) st0)).
  change (apiStack q) with (before ++ SetCmd "src" v :: after).
  rewrite length_app. cbn [length].
  assert (E : replayLoop (length before + S (length after)) 0 q
              = Thrown TypeError (invokeAll before q)).
  { apply (sc_replayLoop_stops before [] v after (length after) q);
      [now eexists | reflexivity | assumption | assumption]. }
  now rewrite E.
Qed.

End SoundCloudReplayFacts.

Section Renderers.
Import JS Renderer.


(** X13. On a ready Vimeo renderer whose calls succeed, muting makes the
    [muted] getter answer true and the [volume] getter 0 and leaves the volume
    to come back to alone; unmuting after the volume was set to [v] makes the
    [volume] getter answer [v] and the [muted] getter answer whether [v] is
    0, so a renderer whose volume was set to 0 is still muted after
    [setMuted(false)]. *)
Theorem vimeo_muted_follows_volume (st : Vimeo.state) (p : nat) (v : value) :
  Vimeo.vimeoPlayer st = Some p -> Vimeo.pending st = [] ->
  let ok := Vimeo.Settle 0 (Vimeo.Fulfilled Vimeo.NoResult) in
  let muted := Vimeo.run [Vimeo.Assign "muted" (VBool true); ok] st in
  let unmuted := Vimeo.run [Vimeo.Assign "volume" v; ok;
                            Vimeo.Assign "muted" (VBool false); ok] st in
  fst (Vimeo.getProp "muted" muted) = GValue (VBool true)
  /\ fst (Vimeo.getProp "volume" muted) = GValue (VNum 0)
  /\ Vimeo.oldVolume muted = Vimeo.oldVolume st
  /\ fst (Vimeo.getProp "volume" unmuted) = GValue v
  /\ fst (Vimeo.getProp "muted" unmuted) = GValue (VBool (strict_eq_zero v)).
Proof.
  intros Hp He. destruct st; simpl in *; subst. cbv zeta. repeat split.
Qed.

Lemma vimeo_muted_follows_volume_witness :
  let st := state_of (Vimeo.ready 3 (Vimeo.create VNull None)) in
  let ok := Vimeo.Settle 0 (Vimeo.Fulfilled Vimeo.NoResult) in
  Vimeo.vimeoPlayer st = Some 3%nat /\ Vimeo.pending st = []
  /\ fst (Vimeo.getProp "muted"
            (Vimeo.run [Vimeo.Assign "volume" (VNum 0); ok;
                        Vimeo.Assign "muted" (VBool false); ok] st))
     = GValue (VBool true).
Proof.
  cbv zeta. split; [reflexivity|]. split; [reflexivity|].
  destruct (vimeo_muted_follows_volume
              (state_of (Vimeo.ready 3 (Vimeo.create VNull None))) 3 (VNum 0)
              eq_refl eq_refl) as (_ & _ & _ & _ & H).
  exact H.
Defined.

(** X14. A seek issued on a Vimeo renderer before the ready signal reaches
    the widget only when the ready callback replays it; the cached
    [currentTime] becomes the sought value when the widget confirms the call,
    and one [timeupdate] follows the four initial events when the timer
    expires.  If the widget rejects the call, the cached time stays 0 and no
    timer is started. *)
Theorem vimeo_seek_before_ready
    (v autoplay : value) (g : option element) (p : nat)
    (r : Vimeo.result) (e : remoteError) :
  let queued := Vimeo.run [Vimeo.Assign "currentTime" v] (Vimeo.create autoplay g) in
  let st := Vimeo.run [Vimeo.Ready p; Vimeo.Settle 0 (Vimeo.Fulfilled r);
                        Vimeo.Timeout 0] queued in
  let failed := Vimeo.run [Vimeo.Ready p; Vimeo.Settle 0 (Vimeo.Rejected e)] queued in
  Vimeo.remoteCalls queued = []
  /\ fst (Vimeo.getProp "currentTime" queued) = GValue VNull
  /\ Vimeo.remoteCalls st = Vimeo.setCurrentTime v :: map Vimeo.on Vimeo.playerEvents
  /\ fst (Vimeo.getProp "currentTime" st) = GValue v
  /\ Vimeo.dispatched Owner st = map plain (Vimeo.initialEvents ++ ["timeupdate"])
  /\ Vimeo.pending st = [] /\ Vimeo.timers st = []
  /\ fst (Vimeo.getProp "currentTime" failed) = GValue (VNum 0)
  /\ Vimeo.timers failed = [] /\ Vimeo.pending failed = [].
Proof.
  cbv zeta. repeat split.
  - unfold Vimeo.run, Vimeo.step, fold_left, Vimeo.settle. simpl.
    unfold Vimeo.runCatch, Vimeo.errorHandler. simpl. now destruct g.
  - unfold Vimeo.run, Vimeo.step, fold_left, Vimeo.settle. simpl.
    unfold Vimeo.runCatch, Vimeo.errorHandler. simpl. now destruct g.
  - unfold Vimeo.run, Vimeo.step, fold_left, Vimeo.settle. simpl.
    unfold Vimeo.runCatch, Vimeo.errorHandler. simpl. now destruct g.
Qed.

(** X15. A queued [src] command whose value is neither a string nor a
    non-empty list of sources stops the replay: the commands queued before it
    have been invoked, in order, the ready callback throws a [TypeError], and
    nothing behind it happens: no event handler is attached and none of the
    initial events is dispatched, in either renderer. *)
Theorem replay_stops_at_bad_src
    (player : nat) (before after : list command) (v : value)
    (autoplay : value) (g : option element) (src0 : string) :
  Forall (fun c => replayable c = true) before -> src_of v = None ->
  let cs := before ++ SetCmd "src" v :: after in
  (let queued := Vimeo.invokeAll cs (Vimeo.create autoplay g) in
   let stopped := Vimeo.invokeAll before (Vimeo.attach player queued) in
   Vimeo.ready player queued = Thrown TypeError stopped
   /\ Vimeo.wired stopped = 0%nat /\ Vimeo.dispatched Owner stopped = [])
  /\ (let queued := SoundCloud.invokeAll cs (SoundCloud.create src0) in
      let stopped := SoundCloud.invokeAll before (SoundCloud.attach player queued) in
      SoundCloud.ready player queued = Thrown TypeError stopped
      /\ SoundCloud.wired stopped = 0%nat /\ SoundCloud.dispatched Owner stopped = []).
Proof.
  intros Hb Hv. cbv zeta. split.
  - split; [now apply VimeoReplayFacts.vimeo_ready_stops|].
    destruct (VimeoReplayFacts.vimeo_invokeAll_quiet before
                (Vimeo.attach player
                   (Vimeo.invokeAll (before ++ SetCmd "src" v :: after)
                      (Vimeo.create autoplay g)))) as (D & W & _).
    destruct (VimeoReplayFacts.vimeo_invokeAll_quiet (before ++ SetCmd "src" v :: after)
                (Vimeo.create autoplay g)) as (D' & W' & _).
    split; [rewrite W; exact W' | rewrite D; exact D'].
  - split; [now apply SoundCloudReplayFacts.sc_ready_stops|].
    destruct (SoundCloudReplayFacts.sc_invokeAll_quiet before
                (SoundCloud.attach player
                   (SoundCloud.invokeAll (before ++ SetCmd "src" v :: after)
                      (SoundCloud.create src0)))) as (D & W).
    destruct (SoundCloudReplayFacts.sc_invokeAll_quiet
                (before ++ SetCmd "src" v :: after) (SoundCloud.create src0)) as (D' & W').
    split; [rewrite W; exact W' | rewrite D; exact D'].
Qed.

Lemma replay_stops_at_bad_src_witness :
  let before := [CallCmd "play"; SetCmd "volume" (VNum (1 # 2))] in
  let cs := before ++ SetCmd "src" VNull :: [CallCmd "pause"] in
  Forall (fun c => replayable c = true) before /\ src_of VNull = None
  /\ Vimeo.remoteCalls
       (state_of (Vimeo.ready 0 (Vimeo.invokeAll cs (Vimeo.create VNull None))))
     = [Vimeo.play; Vimeo.setVolume (VNum (1 # 2))]
  /\ returns (Vimeo.ready 0 (Vimeo.invokeAll cs (Vimeo.create VNull None))) = false.
Proof.
  cbv zeta. split; [repeat constructor|]. split; [reflexivity|].
  destruct (replay_stops_at_bad_src 0 [CallCmd "play"; SetCmd "volume" (VNum (1 # 2))]
              [CallCmd "pause"] VNull VNull None "https://soundcloud.com/artist/track"
              ltac:(repeat constructor) eq_refl) as [(E & _) _].
  cbv zeta in E. rewrite E. split; reflexivity.
Defined.

End Renderers.

Module WiringFacts.
Import JS Renderer.





(** A signal leaves the number of attached handlers alone. *)
Lemma vimeo_iter_handler_wired s n st :
  Vimeo.wired (Nat.iter n (Vimeo.handler s) st) = Vimeo.wired st.
Proof. induction n as [|n IH]; simpl; [reflexivity|]. now destruct s. Qed.

Lemma sc_iter_handler_wired s n st :
  SoundCloud.wired (Nat.iter n (SoundCloud.handler s) st) = SoundCloud.wired st.
Proof. induction n as [|n IH]; simpl; [reflexivity|]. now destruct s. Qed.

Lemma sc_iter_pause_ended n st :
  SoundCloud.ended (Nat.iter n (SoundCloud.handler SoundCloud.Pause) st)
    = SoundCloud.ended st.
Proof. induction n as [|n IH]; simpl; [reflexivity | exact IH]. Qed.

End WiringFacts.

Section Wiring.
Import JS Renderer.



(** X17. No closure of the SoundCloud renderer assigns the cached volume:
    from the ready signal on the [volume] getter answers 1, whatever volume
    was set before or after. *)
Theorem soundcloud_volume_stays_one
    (src0 : string) (ops ops' : list SoundCloud.op) (player : nat) :
  fst (SoundCloud.getProp "volume"
         (SoundCloud.run (ops ++ SoundCloud.Ready player :: ops') (SoundCloud.create src0)))
  = GValue (VNum 1).
Proof.
  set (st := SoundCloud.run (ops ++ SoundCloud.Ready player :: ops') (SoundCloud.create src0)).
  assert (Hv : SoundCloud.volume st = VNum 1).
  { unfold st. now destruct (SoundCloudFacts.sc_run_keeps
                               (ops ++ SoundCloud.Ready player :: ops')
                               (SoundCloud.create src0)) as (_ & -> & _). }
  assert (Hp : is_Some (SoundCloud.scPlayer st)).
  { unfold st, SoundCloud.run. rewrite fold_left_app. simpl.
    fold (SoundCloud.run ops (SoundCloud.create src0)).
    set (st1 := SoundCloud.run ops (SoundCloud.create src0)).
    destruct (SoundCloudFacts.sc_ready_keeps player st1) as (_ & _ & _ & Hr & _).
    fold (SoundCloud.run ops' (state_of (SoundCloud.ready player st1))).
    now destruct (SoundCloudFacts.sc_run_keeps ops' (state_of (SoundCloud.ready player st1)))
      as (_ & _ & _ & K); apply K. }
  destruct Hp as [pl Hp]. unfold SoundCloud.getProp. rewrite Hp. simpl. now rewrite Hv.
Qed.

(** X18. On a ready Vimeo renderer, setting [src] to a URL asks the widget
    to load the id [getVimeoId] reads from it, and when that succeeds asks it
    to play exactly if the owner's [autoplay] attribute is truthy; the
    [play] promise has nothing chained on it.  An attribute present with an
    empty value does not count. *)
Theorem vimeo_setSrc_autoplay (st : Vimeo.state) (p : nat) (u : string) (r : Vimeo.result) :
  Vimeo.vimeoPlayer st = Some p -> Vimeo.pending st = [] ->
  exists videoId,
    VimeoApi.getVimeoId (VStr u) = Value videoId
    /\ let st' := Vimeo.run [Vimeo.Assign "src" (VStr u);
                             Vimeo.Settle 0 (Vimeo.Fulfilled r)] st in
       Vimeo.remoteCalls st'
         = Vimeo.remoteCalls st
             ++ Vimeo.loadVideo videoId
                :: (if truthy (Vimeo.autoplay st) then [Vimeo.play] else [])
       /\ Vimeo.pending st'
          = (if truthy (Vimeo.autoplay st)
             then [{| Vimeo.call := Vimeo.play; Vimeo.onFulfilled := None;
                      Vimeo.hasCatch := false |}]
             else [])
       /\ truthy (VStr EmptyString) = false.
Proof.
  intros Hp He. destruct (getVimeoId_string u) as [videoId E].
  exists videoId. split; [exact E|]. cbv zeta.
  unfold Vimeo.run, fold_left, Vimeo.step, Vimeo.setProp. rewrite Hp. simpl src_of.
  cbv iota beta. rewrite E. simpl state_of.
  unfold Vimeo.settle, Vimeo.request. simpl. rewrite He. simpl.
  unfold Vimeo.remoteCalls. simpl.
  destruct (truthy (Vimeo.autoplay st)); simpl; rewrite ?omap_app; simpl;
    rewrite <- ?app_assoc; repeat split.
Qed.

Lemma vimeo_setSrc_autoplay_witness :
  let st := state_of (Vimeo.ready 3 (Vimeo.create (VStr "autoplay") None)) in
  Vimeo.vimeoPlayer st = Some 3%nat /\ Vimeo.pending st = []
  /\ exists videoId,
       VimeoApi.getVimeoId (VStr "https://vimeo.com/59777392") = Value videoId.
Proof.
  cbv zeta. split; [reflexivity|]. split; [reflexivity|].
  destruct (vimeo_setSrc_autoplay
              (state_of (Vimeo.ready 3 (Vimeo.create (VStr "autoplay") None))) 3
              "https://vimeo.com/59777392" Vimeo.NoResult eq_refl eq_refl)
    as (videoId & E & _).
  now exists videoId.
Defined.

(** X19. In the Vimeo renderer, once handlers are attached, the widget's
    [ended] event makes the [ended] flag true and the [paused] flag false, and
    each of [play], [pause] and [timeupdate] makes [ended] false again; so
    after [ended] followed by [pause] the renderer is paused and not ended. *)
Theorem vimeo_ended_flag (st : Vimeo.state) (n : nat) :
  Vimeo.wired st = S n ->
  Vimeo.ended (Vimeo.signalled Vimeo.Ended st) = true
  /\ Vimeo.paused (Vimeo.signalled Vimeo.Ended st) = false
  /\ Vimeo.ended (Vimeo.signalled Vimeo.Play st) = false
  /\ Vimeo.ended (Vimeo.signalled Vimeo.Pause st) = false
  /\ (forall b, Vimeo.ended (Vimeo.signalled (Vimeo.Timeupdate b) st) = false)
  /\ Vimeo.ended (Vimeo.signalled Vimeo.Pause (Vimeo.signalled Vimeo.Ended st)) = false
  /\ Vimeo.paused (Vimeo.signalled Vimeo.Pause (Vimeo.signalled Vimeo.Ended st)) = true.
Proof.
  intros Hw.
  assert (Hw' : Vimeo.wired (Vimeo.signalled Vimeo.Ended st) = S n).
  { unfold Vimeo.signalled. now rewrite WiringFacts.vimeo_iter_handler_wired. }
  unfold Vimeo.signalled in *. rewrite Hw' , Hw. simpl. repeat split.
Qed.

Lemma vimeo_ended_flag_witness :
  let st := state_of (Vimeo.ready 0 (Vimeo.create VNull None)) in
  Vimeo.wired st = 1%nat
  /\ Vimeo.ended (Vimeo.signalled Vimeo.Ended st) = true
  /\ Vimeo.ended (Vimeo.signalled Vimeo.Pause (Vimeo.signalled Vimeo.Ended st)) = false.
Proof.
  cbv zeta. split; [reflexivity|].
  destruct (vimeo_ended_flag (state_of (Vimeo.ready 0 (Vimeo.create VNull None))) 0 eq_refl)
    as (H1 & _ & _ & _ & _ & H2 & _).
  split; [exact H1 | exact H2].
Defined.

(** X20. In the SoundCloud renderer, once handlers are bound, FINISHED
    makes the [ended] flag true and the [paused] flag false, PLAY and
    PLAY_PROGRESS make [ended] false, and PAUSE sets [paused] without touching
    [ended]; so after FINISHED followed by PAUSE the renderer is both ended
    and paused. *)
Theorem soundcloud_ended_flag (st : SoundCloud.state) (n : nat) :
  SoundCloud.wired st = S n ->
  SoundCloud.ended (SoundCloud.signalled SoundCloud.Finished st) = true
  /\ SoundCloud.paused (SoundCloud.signalled SoundCloud.Finished st) = false
  /\ SoundCloud.ended (SoundCloud.signalled SoundCloud.Play st) = false
  /\ SoundCloud.ended (SoundCloud.signalled SoundCloud.PlayProgress st) = false
  /\ SoundCloud.ended (SoundCloud.signalled SoundCloud.Pause st) = SoundCloud.ended st
  /\ SoundCloud.paused (SoundCloud.signalled SoundCloud.Pause st) = true
  /\ SoundCloud.ended
       (SoundCloud.signalled SoundCloud.Pause (SoundCloud.signalled SoundCloud.Finished st))
     = true
  /\ SoundCloud.paused
       (SoundCloud.signalled SoundCloud.Pause (SoundCloud.signalled SoundCloud.Finished st))
     = true.
Proof.
  intros Hw.
  assert (Hw' : SoundCloud.wired (SoundCloud.signalled SoundCloud.Finished st) = S n).
  { unfold SoundCloud.signalled. now rewrite WiringFacts.sc_iter_handler_wired. }
  unfold SoundCloud.signalled in *. rewrite Hw', Hw. simpl.
  rewrite !WiringFacts.sc_iter_pause_ended. simpl. repeat split.
Qed.

Lemma soundcloud_ended_flag_witness :
  let st := state_of (SoundCloud.ready 0 (SoundCloud.create "https://soundcloud.com/a/b")) in
  SoundCloud.wired st = 1%nat
  /\ SoundCloud.ended
       (SoundCloud.signalled SoundCloud.Pause (SoundCloud.signalled SoundCloud.Finished st))
     = true
  /\ SoundCloud.paused
       (SoundCloud.signalled SoundCloud.Pause (SoundCloud.signalled SoundCloud.Finished st))
     = true.
Proof.
  cbv zeta. split; [reflexivity|].
  destruct (soundcloud_ended_flag
              (state_of (SoundCloud.ready 0 (SoundCloud.create "https://soundcloud.com/a/b")))
              0 eq_refl) as (_ & _ & _ & _ & _ & _ & H1 & H2).
  split; [exact H1 | exact H2].
Defined.

End Wiring.
